(** * VirtualC64: the complex interface adapter (CIA.h)

    A shallow embedding of the inline part of [class CIA], [class CIA1] and
    [class CIA2]: the delay-pipeline constants, the register accessors, the
    timer accessors and the address predicates.  Fixed-width C integers are
    integers of [Z] with the wrap-around of every assignment written out. *)

From Stdlib Require Import ZArith Bool List Lia Btauto.
From coqutil Require Import Z.bitblast.
Import ListNotations.

Local Open Scope Z_scope.
Local Open Scope bool_scope.

(** ** C integer conversions *)

(** Value ranges of [uint8_t], [uint16_t] and [uint64_t]. *)
Definition uint8 (z : Z) : Prop := 0 <= z < 2 ^ 8.
Definition uint16 (z : Z) : Prop := 0 <= z < 2 ^ 16.
Definition uint64 (z : Z) : Prop := 0 <= z < 2 ^ 64.

(** Conversion of an integer value to an unsigned type: reduction modulo
    2^w.  On a negative [int] this is the sign extension C performs. *)
Definition to_uint8 (z : Z) : Z := z mod 2 ^ 8.
Definition to_uint16 (z : Z) : Z := z mod 2 ^ 16.
Definition to_uint64 (z : Z) : Z := z mod 2 ^ 64.

(** Conversion to [bool]: every non-zero value becomes [true]. *)
Definition to_bool (z : Z) : bool := negb (z =? 0).

(** The single-bit masks the flag accessors of the header use. *)
Definition flag_masks : list Z := [0x01; 0x02; 0x04; 0x08; 0x10].

(** ** Delay-pipeline events (CIA.h, lines 34-90) *)

Definition CountA0 : Z := 0x00000001.
Definition CountA1 : Z := 0x00000002.
Definition CountA2 : Z := 0x00000004.
Definition CountA3 : Z := 0x00000008.
Definition CountB0 : Z := 0x00000010.
Definition CountB1 : Z := 0x00000020.
Definition CountB2 : Z := 0x00000040.
Definition CountB3 : Z := 0x00000080.
Definition LoadA0 : Z := 0x00000100.
Definition LoadA1 : Z := 0x00000200.
Definition LoadA2 : Z := 0x00000400.
Definition LoadB0 : Z := 0x00000800.
Definition LoadB1 : Z := 0x00001000.
Definition LoadB2 : Z := 0x00002000.
Definition PB6Low0 : Z := 0x00004000.
Definition PB6Low1 : Z := 0x00008000.
Definition PB7Low0 : Z := 0x00010000.
Definition PB7Low1 : Z := 0x00020000.
Definition Interrupt0 : Z := 0x00040000.
Definition Interrupt1 : Z := 0x00080000.
Definition OneShotA0 : Z := 0x00100000.
Definition OneShotB0 : Z := 0x00200000.
Definition ReadIcr0 : Z := 0x00400000.
Definition ReadIcr1 : Z := 0x00800000.
Definition ClearIcr0 : Z := 0x01000000.
Definition ClearIcr1 : Z := 0x02000000.
Definition ClearIcr2 : Z := 0x04000000.
Definition SetIcr0 : Z := 0x08000000.
Definition SetIcr1 : Z := 0x10000000.
Definition TODInt0 : Z := 0x20000000.

Definition Cnt0 : Z := 0x0000100000000000.
Definition Cnt1 : Z := 0x0000200000000000.
Definition Cnt2 : Z := 0x0000400000000000.
Definition SerInt0 : Z := 0x0000800000000000.
Definition SerInt1 : Z := 0x0001000000000000.
Definition SerInt2 : Z := 0x0002000000000000.
Definition SerLoad0 : Z := 0x0004000000000000.
Definition SerLoad1 : Z := 0x0008000000000000.
Definition SerClk0 : Z := 0x0010000000000000.
Definition SerClk1 : Z := 0x0020000000000000.
Definition SerClk2 : Z := 0x0040000000000000.
Definition SerClk3 : Z := 0x0080000000000000.

(* Hoxs *)
Definition SetCntFlip0 : Z := 0x0000000400000000.
Definition SetCntFlip1 : Z := 0x0000000800000000.
Definition SetCntFlip2 : Z := 0x0000001000000000.
Definition SetCntFlip3 : Z := 0x0000002000000000.
Definition SetCnt0 : Z := 0x0000004000000000.
Definition SetCnt1 : Z := 0x0000008000000000.
Definition SetCnt2 : Z := 0x0000010000000000.
Definition SetCnt3 : Z := 0x0000020000000000.

(** The operand of [~] in [DelayMask]: the macro's [|]-chain in its order.
    [SetCntFlip0] and [SetCnt0] are [unsigned long long], so the whole
    operand is a 64-bit unsigned value. *)
Definition DelayMask_operand : Z :=
  Z.lor (Z.lor (Z.lor (Z.lor (Z.lor (Z.lor (Z.lor (Z.lor (Z.lor (Z.lor
  (Z.lor (Z.lor (Z.lor (Z.lor (Z.lor (Z.lor (Z.lor (Z.lor
    CountA0 CountB0) LoadA0) LoadB0) PB6Low0) PB7Low0) Interrupt0)
    OneShotA0) OneShotB0) ReadIcr0) ClearIcr0) SetIcr0) TODInt0) Cnt0)
    SerInt0) SerLoad0) SerClk0) SetCntFlip0) SetCnt0.

(** [#define DelayMask ~(CountA0 | ... | SetCnt0)]: complement in 64 bits. *)
Definition DelayMask : Z := to_uint64 (Z.lnot DelayMask_operand).

(** Every event constant of the header, in the order of definition. *)
Definition delay_events : list Z :=
  [ CountA0; CountA1; CountA2; CountA3; CountB0; CountB1; CountB2; CountB3;
    LoadA0; LoadA1; LoadA2; LoadB0; LoadB1; LoadB2;
    PB6Low0; PB6Low1; PB7Low0; PB7Low1; Interrupt0; Interrupt1;
    OneShotA0; OneShotB0; ReadIcr0; ReadIcr1;
    ClearIcr0; ClearIcr1; ClearIcr2; SetIcr0; SetIcr1; TODInt0;
    Cnt0; Cnt1; Cnt2; SerInt0; SerInt1; SerInt2; SerLoad0; SerLoad1;
    SerClk0; SerClk1; SerClk2; SerClk3;
    SetCntFlip0; SetCntFlip1; SetCntFlip2; SetCntFlip3;
    SetCnt0; SetCnt1; SetCnt2; SetCnt3 ].

(** The events whose name ends in 0: the first stage of each pipeline. *)
Definition stage0_events : list Z :=
  [ CountA0; CountB0; LoadA0; LoadB0; PB6Low0; PB7Low0; Interrupt0;
    OneShotA0; OneShotB0; ReadIcr0; ClearIcr0; SetIcr0; TODInt0;
    Cnt0; SerInt0; SerLoad0; SerClk0; SetCntFlip0; SetCnt0 ].

(** Bit position [i] carries a stage-0 event. *)
Definition is_stage0_bit (i : Z) : bool :=
  existsb (fun e => e =? 2 ^ i) stage0_events.

(** [e] is a single bit of a 64-bit word. *)
Definition single_bit64 (e : Z) : bool :=
  existsb (fun k => e =? 2 ^ Z.of_nat k) (seq 0 64).

(** Decidable "no duplicates" on integer lists. *)
Fixpoint distinctb (l : list Z) : bool :=
  match l with
  | [] => true
  | x :: r => negb (existsb (Z.eqb x) r) && distinctb r
  end.

(** ** The state of one CIA chip (CIA.h, lines 99-208) *)

Section CIA_state.

(** [class TOD] is declared in TOD.h; the accessors below never look inside
    it, so the clock is a value of an arbitrary type. *)
Context {TOD : Type}.

(** The data members of [class CIA] in the order of declaration.
    [uint8_t], [uint16_t] and [uint64_t] members are integers, see
    [valid_CIA] for their ranges. *)
Record CIA : Type := mkCIA {
  SDR : Z;
  serClk : bool;
  serCounter : Z;
  serial_int_count : Z;
  f_cnt_out : bool;
  todAlarm : bool;
  counterA : Z;
  latchA : Z;
  counterB : Z;
  latchB : Z;
  tod : TOD;
  delay : Z;
  feed : Z;
  CRA : Z;
  CRB : Z;
  ICR : Z;
  IMR : Z;
  PB67TimerMode : Z;
  PB67TimerOut : Z;
  PB67Toggle : Z;
  PALatch : Z;
  PBLatch : Z;
  DDRA : Z;
  DDRB : Z;
  PA : Z;
  PB : Z;
  CNT : bool;
  INT : bool
}.

(** Every integer member holds a value of its C type. *)
Definition valid_CIA (c : CIA) : Prop :=
  uint8 (SDR c) /\ uint8 (serCounter c) /\ uint8 (serial_int_count c) /\
  uint16 (counterA c) /\ uint16 (latchA c) /\
  uint16 (counterB c) /\ uint16 (latchB c) /\
  uint64 (delay c) /\ uint64 (feed c) /\
  uint8 (CRA c) /\ uint8 (CRB c) /\ uint8 (ICR c) /\ uint8 (IMR c) /\
  uint8 (PB67TimerMode c) /\ uint8 (PB67TimerOut c) /\ uint8 (PB67Toggle c) /\
  uint8 (PALatch c) /\ uint8 (PBLatch c) /\
  uint8 (DDRA c) /\ uint8 (DDRB c) /\ uint8 (PA c) /\ uint8 (PB c).

(** Assignment to one member; all other members keep their value. *)
Definition set_counterA (v : Z) (c : CIA) : CIA :=
  mkCIA (SDR c) (serClk c) (serCounter c) (serial_int_count c) (f_cnt_out c)
    (todAlarm c) v (latchA c) (counterB c) (latchB c) (tod c) (delay c)
    (feed c) (CRA c) (CRB c) (ICR c) (IMR c) (PB67TimerMode c)
    (PB67TimerOut c) (PB67Toggle c) (PALatch c) (PBLatch c) (DDRA c)
    (DDRB c) (PA c) (PB c) (CNT c) (INT c).

Definition set_latchA (v : Z) (c : CIA) : CIA :=
  mkCIA (SDR c) (serClk c) (serCounter c) (serial_int_count c) (f_cnt_out c)
    (todAlarm c) (counterA c) v (counterB c) (latchB c) (tod c) (delay c)
    (feed c) (CRA c) (CRB c) (ICR c) (IMR c) (PB67TimerMode c)
    (PB67TimerOut c) (PB67Toggle c) (PALatch c) (PBLatch c) (DDRA c)
    (DDRB c) (PA c) (PB c) (CNT c) (INT c).

Definition set_counterB (v : Z) (c : CIA) : CIA :=
  mkCIA (SDR c) (serClk c) (serCounter c) (serial_int_count c) (f_cnt_out c)
    (todAlarm c) (counterA c) (latchA c) v (latchB c) (tod c) (delay c)
    (feed c) (CRA c) (CRB c) (ICR c) (IMR c) (PB67TimerMode c)
    (PB67TimerOut c) (PB67Toggle c) (PALatch c) (PBLatch c) (DDRA c)
    (DDRB c) (PA c) (PB c) (CNT c) (INT c).

Definition set_latchB (v : Z) (c : CIA) : CIA :=
  mkCIA (SDR c) (serClk c) (serCounter c) (serial_int_count c) (f_cnt_out c)
    (todAlarm c) (counterA c) (latchA c) (counterB c) v (tod c) (delay c)
    (feed c) (CRA c) (CRB c) (ICR c) (IMR c) (PB67TimerMode c)
    (PB67TimerOut c) (PB67Toggle c) (PALatch c) (PBLatch c) (DDRA c)
    (DDRB c) (PA c) (PB c) (CNT c) (INT c).

Definition set_delay (v : Z) (c : CIA) : CIA :=
  mkCIA (SDR c) (serClk c) (serCounter c) (serial_int_count c) (f_cnt_out c)
    (todAlarm c) (counterA c) (latchA c) (counterB c) (latchB c) (tod c) v
    (feed c) (CRA c) (CRB c) (ICR c) (IMR c) (PB67TimerMode c)
    (PB67TimerOut c) (PB67Toggle c) (PALatch c) (PBLatch c) (DDRA c)
    (DDRB c) (PA c) (PB c) (CNT c) (INT c).

Definition set_CRA (v : Z) (c : CIA) : CIA :=
  mkCIA (SDR c) (serClk c) (serCounter c) (serial_int_count c) (f_cnt_out c)
    (todAlarm c) (counterA c) (latchA c) (counterB c) (latchB c) (tod c)
    (delay c) (feed c) v (CRB c) (ICR c) (IMR c) (PB67TimerMode c)
    (PB67TimerOut c) (PB67Toggle c) (PALatch c) (PBLatch c) (DDRA c)
    (DDRB c) (PA c) (PB c) (CNT c) (INT c).

Definition set_CRB (v : Z) (c : CIA) : CIA :=
  mkCIA (SDR c) (serClk c) (serCounter c) (serial_int_count c) (f_cnt_out c)
    (todAlarm c) (counterA c) (latchA c) (counterB c) (latchB c) (tod c)
    (delay c) (feed c) (CRA c) v (ICR c) (IMR c) (PB67TimerMode c)
    (PB67TimerOut c) (PB67Toggle c) (PALatch c) (PBLatch c) (DDRA c)
    (DDRB c) (PA c) (PB c) (CNT c) (INT c).

Definition set_ICR (v : Z) (c : CIA) : CIA :=
  mkCIA (SDR c) (serClk c) (serCounter c) (serial_int_count c) (f_cnt_out c)
    (todAlarm c) (counterA c) (latchA c) (counterB c) (latchB c) (tod c)
    (delay c) (feed c) (CRA c) (CRB c) v (IMR c) (PB67TimerMode c)
    (PB67TimerOut c) (PB67Toggle c) (PALatch c) (PBLatch c) (DDRA c)
    (DDRB c) (PA c) (PB c) (CNT c) (INT c).

Definition set_IMR (v : Z) (c : CIA) : CIA :=
  mkCIA (SDR c) (serClk c) (serCounter c) (serial_int_count c) (f_cnt_out c)
    (todAlarm c) (counterA c) (latchA c) (counterB c) (latchB c) (tod c)
    (delay c) (feed c) (CRA c) (CRB c) (ICR c) v (PB67TimerMode c)
    (PB67TimerOut c) (PB67Toggle c) (PALatch c) (PBLatch c) (DDRA c)
    (DDRB c) (PA c) (PB c) (CNT c) (INT c).

(** ** Interrupt control (CIA.h, lines 286-332) *)

Definition isInterruptEnabledA (c : CIA) : bool := to_bool (Z.land (IMR c) 0x01).

Definition setInterruptEnabledA (b : bool) (c : CIA) : CIA :=
  if b then set_IMR (to_uint8 (Z.lor (IMR c) 0x01)) c
  else set_IMR (to_uint8 (Z.land (IMR c) (0xff - 0x01))) c.

Definition toggleInterruptEnableFlagA (c : CIA) : CIA :=
  setInterruptEnabledA (negb (isInterruptEnabledA c)) c.

Definition isSignalPendingA (c : CIA) : bool := to_bool (Z.land (ICR c) 0x01).

Definition setSignalPendingA (b : bool) (c : CIA) : CIA :=
  if b then set_ICR (to_uint8 (Z.lor (ICR c) 0x01)) c
  else set_ICR (to_uint8 (Z.land (ICR c) (0xff - 0x01))) c.

Definition togglePendingSignalFlagA (c : CIA) : CIA :=
  setSignalPendingA (negb (isSignalPendingA c)) c.

Definition isInterruptEnabledB (c : CIA) : bool := to_bool (Z.land (IMR c) 0x02).

Definition setInterruptEnabledB (b : bool) (c : CIA) : CIA :=
  if b then set_IMR (to_uint8 (Z.lor (IMR c) 0x02)) c
  else set_IMR (to_uint8 (Z.land (IMR c) (0xff - 0x02))) c.

Definition toggleInterruptEnableFlagB (c : CIA) : CIA :=
  setInterruptEnabledB (negb (isInterruptEnabledB c)) c.

Definition isSignalPendingB (c : CIA) : bool := to_bool (Z.land (ICR c) 0x02).

Definition setSignalPendingB (b : bool) (c : CIA) : CIA :=
  if b then set_ICR (to_uint8 (Z.lor (ICR c) 0x02)) c
  else set_ICR (to_uint8 (Z.land (ICR c) (0xff - 0x02))) c.

Definition togglePendingSignalFlagB (c : CIA) : CIA :=
  setSignalPendingB (negb (isSignalPendingB c)) c.

(** The TOD and FLAG accessors read and write [ICR], as the header does. *)
Definition isInterruptEnabledTOD (c : CIA) : bool := to_bool (Z.land (ICR c) 0x04).

Definition setInterruptEnabledTOD (b : bool) (c : CIA) : CIA :=
  if b then set_ICR (to_uint8 (Z.lor (ICR c) 0x04)) c
  else set_ICR (to_uint8 (Z.land (ICR c) (0xff - 0x04))) c.

Definition isInterruptEnabledFlg (c : CIA) : bool := to_bool (Z.land (ICR c) 0x10).

Definition setInterruptEnabledFlg (b : bool) (c : CIA) : CIA :=
  if b then set_ICR (to_uint8 (Z.lor (ICR c) 0x10)) c
  else set_ICR (to_uint8 (Z.land (ICR c) (0xff - 0x10))) c.

(** ** Timer A (CIA.h, lines 338-420) *)

Definition getLatchA (c : CIA) : Z := latchA c.
Definition setLatchA (value : Z) (c : CIA) : CIA := set_latchA value c.

Definition getLatchALo (c : CIA) : Z := to_uint8 (Z.land (latchA c) 0xFF).

Definition setLatchALo (value : Z) (c : CIA) : CIA :=
  set_latchA (to_uint16 (Z.lor (Z.land (latchA c) 0xFF00) value)) c.

Definition getLatchAHi (c : CIA) : Z := to_uint8 (Z.shiftr (latchA c) 8).

Definition setLatchAHi (value : Z) (c : CIA) : CIA :=
  set_latchA (to_uint16 (Z.lor (Z.shiftl value 8) (Z.land (latchA c) 0xFF))) c.

Definition getCounterA (c : CIA) : Z := counterA c.
Definition setCounterA (value : Z) (c : CIA) : CIA := set_counterA value c.

Definition getCounterALo (c : CIA) : Z := to_uint8 (Z.land (counterA c) 0xFF).

Definition setCounterALo (value : Z) (c : CIA) : CIA :=
  set_counterA (to_uint16 (Z.lor (Z.land (counterA c) 0xFF00) value)) c.

Definition getCounterAHi (c : CIA) : Z := to_uint8 (Z.shiftr (counterA c) 8).

Definition setCounterAHi (value : Z) (c : CIA) : CIA :=
  set_counterA (to_uint16 (Z.lor (Z.shiftl value 8) (Z.land (counterA c) 0xFF))) c.

(** [counterA = latchA; delay &= ~CountA2;].  [CountA2] is an [int], so
    [~CountA2] is the negative [int] -5, converted to [uint64_t] for [&]. *)
Definition reloadTimerA (c : CIA) : CIA :=
  let c1 := set_counterA (latchA c) c in
  set_delay (to_uint64 (Z.land (delay c1) (to_uint64 (Z.lnot CountA2)))) c1.

Definition isStartedA (c : CIA) : bool := to_bool (Z.land (CRA c) 0x01).

Definition setStartedA (b : bool) (c : CIA) : CIA :=
  if b then set_CRA (to_uint8 (Z.lor (CRA c) 0x01)) c
  else set_CRA (to_uint8 (Z.land (CRA c) 0xFE)) c.

Definition toggleStartFlagA (c : CIA) : CIA := setStartedA (negb (isStartedA c)) c.

Definition forceLoadStrobeA (c : CIA) : bool := to_bool (Z.land (CRA c) 0x10).

Definition willIndicateUnderflowA (c : CIA) : bool := to_bool (Z.land (CRA c) 0x02).

Definition willIndicateUnderflowAsPulseA (c : CIA) : bool :=
  negb (to_bool (Z.land (CRA c) 0x04)).

Definition setIndicateUnderflowA (b : bool) (c : CIA) : CIA :=
  if b then set_CRA (to_uint8 (Z.lor (CRA c) 0x02)) c
  else set_CRA (to_uint8 (Z.land (CRA c) (0xFF - 0x02))) c.

Definition toggleUnderflowFlagA (c : CIA) : CIA :=
  setIndicateUnderflowA (negb (willIndicateUnderflowA c)) c.

Definition isOneShotA (c : CIA) : bool := to_bool (Z.land (CRA c) 0x08).

Definition setOneShotA (b : bool) (c : CIA) : CIA :=
  if b then set_CRA (to_uint8 (Z.lor (CRA c) 0x08)) c
  else set_CRA (to_uint8 (Z.land (CRA c) (0xff - 0x08))) c.

Definition toggleOneShotFlagA (c : CIA) : CIA := setOneShotA (negb (isOneShotA c)) c.

Definition isCountingClockTicksA (c : CIA) : bool := Z.land (CRA c) 0x20 =? 0x00.

(** The return type of [getControlRegA] is [bool]. *)
Definition getControlRegA (c : CIA) : bool := to_bool (CRA c).

Definition setControlRegA (value : Z) (c : CIA) : CIA := set_CRA value c.

(** ** Timer B (CIA.h, lines 426-508) *)

Definition getLatchB (c : CIA) : Z := latchB c.
Definition setLatchB (value : Z) (c : CIA) : CIA := set_latchB value c.

Definition getLatchBLo (c : CIA) : Z := to_uint8 (Z.land (latchB c) 0xFF).

Definition setLatchBLo (value : Z) (c : CIA) : CIA :=
  set_latchB (to_uint16 (Z.lor (Z.land (latchB c) 0xFF00) value)) c.

Definition getLatchBHi (c : CIA) : Z := to_uint8 (Z.shiftr (latchB c) 8).

Definition setLatchBHi (value : Z) (c : CIA) : CIA :=
  set_latchB (to_uint16 (Z.lor (Z.shiftl value 8) (Z.land (latchB c) 0xFF))) c.

Definition getCounterB (c : CIA) : Z := counterB c.
Definition setCounterB (value : Z) (c : CIA) : CIA := set_counterB value c.

Definition getCounterBLo (c : CIA) : Z := to_uint8 (Z.land (counterB c) 0xFF).

Definition setCounterBLo (value : Z) (c : CIA) : CIA :=
  set_counterB (to_uint16 (Z.lor (Z.land (counterB c) 0xFF00) value)) c.

Definition getCounterBHi (c : CIA) : Z := to_uint8 (Z.shiftr (counterB c) 8).

Definition setCounterBHi (value : Z) (c : CIA) : CIA :=
  set_counterB (to_uint16 (Z.lor (Z.shiftl value 8) (Z.land (counterB c) 0xFF))) c.

(** [counterB = latchB; delay &= ~CountB2;] *)
Definition reloadTimerB (c : CIA) : CIA :=
  let c1 := set_counterB (latchB c) c in
  set_delay (to_uint64 (Z.land (delay c1) (to_uint64 (Z.lnot CountB2)))) c1.

Definition isStartedB (c : CIA) : bool := to_bool (Z.land (CRB c) 0x01).

Definition setStartedB (b : bool) (c : CIA) : CIA :=
  if b then set_CRB (to_uint8 (Z.lor (CRB c) 0x01)) c
  else set_CRB (to_uint8 (Z.land (CRB c) 0xFE)) c.

Definition toggleStartFlagB (c : CIA) : CIA := setStartedB (negb (isStartedB c)) c.

Definition forceLoadStrobeB (c : CIA) : bool := to_bool (Z.land (CRB c) 0x10).

Definition willIndicateUnderflowB (c : CIA) : bool := to_bool (Z.land (CRB c) 0x02).

Definition willIndicateUnderflowAsPulseB (c : CIA) : bool :=
  negb (to_bool (Z.land (CRB c) 0x04)).

Definition setIndicateUnderflowB (b : bool) (c : CIA) : CIA :=
  if b then set_CRB (to_uint8 (Z.lor (CRB c) 0x02)) c
  else set_CRB (to_uint8 (Z.land (CRB c) (0xFF - 0x02))) c.

Definition toggleUnderflowFlagB (c : CIA) : CIA :=
  setIndicateUnderflowB (negb (willIndicateUnderflowB c)) c.

Definition isOneShotB (c : CIA) : bool := to_bool (Z.land (CRB c) 0x08).

Definition setOneShotB (b : bool) (c : CIA) : CIA :=
  if b then set_CRB (to_uint8 (Z.lor (CRB c) 0x08)) c
  else set_CRB (to_uint8 (Z.land (CRB c) (0xff - 0x08))) c.

Definition toggleOneShotFlagB (c : CIA) : CIA := setOneShotB (negb (isOneShotB c)) c.

Definition isCountingClockTicksB (c : CIA) : bool := Z.land (CRB c) 0x20 =? 0x00.

Definition getControlRegB (c : CIA) : bool := to_bool (CRB c).

Definition setControlRegB (value : Z) (c : CIA) : CIA := set_CRB value c.

(** ** The toggle helpers as one family *)

(** The ten [toggle...] member functions of [class CIA]. *)
Inductive Toggle : Type :=
  | ToggleInterruptEnableFlagA
  | TogglePendingSignalFlagA
  | ToggleInterruptEnableFlagB
  | TogglePendingSignalFlagB
  | ToggleStartFlagA
  | ToggleUnderflowFlagA
  | ToggleOneShotFlagA
  | ToggleStartFlagB
  | ToggleUnderflowFlagB
  | ToggleOneShotFlagB.

Definition run_toggle (t : Toggle) (c : CIA) : CIA :=
  match t with
  | ToggleInterruptEnableFlagA => toggleInterruptEnableFlagA c
  | TogglePendingSignalFlagA => togglePendingSignalFlagA c
  | ToggleInterruptEnableFlagB => toggleInterruptEnableFlagB c
  | TogglePendingSignalFlagB => togglePendingSignalFlagB c
  | ToggleStartFlagA => toggleStartFlagA c
  | ToggleUnderflowFlagA => toggleUnderflowFlagA c
  | ToggleOneShotFlagA => toggleOneShotFlagA c
  | ToggleStartFlagB => toggleStartFlagB c
  | ToggleUnderflowFlagB => toggleUnderflowFlagB c
  | ToggleOneShotFlagB => toggleOneShotFlagB c
  end.

(** The four registers the toggle helpers address. *)
Inductive Register : Type := RegCRA | RegCRB | RegICR | RegIMR.

Definition get_register (r : Register) (c : CIA) : Z :=
  match r with
  | RegCRA => CRA c
  | RegCRB => CRB c
  | RegICR => ICR c
  | RegIMR => IMR c
  end.

Definition set_register (r : Register) (v : Z) (c : CIA) : CIA :=
  match r with
  | RegCRA => set_CRA v c
  | RegCRB => set_CRB v c
  | RegICR => set_ICR v c
  | RegIMR => set_IMR v c
  end.

(** Register and bit position each helper reads and writes. *)
Definition toggle_register (t : Toggle) : Register :=
  match t with
  | ToggleInterruptEnableFlagA | ToggleInterruptEnableFlagB => RegIMR
  | TogglePendingSignalFlagA | TogglePendingSignalFlagB => RegICR
  | ToggleStartFlagA | ToggleUnderflowFlagA | ToggleOneShotFlagA => RegCRA
  | ToggleStartFlagB | ToggleUnderflowFlagB | ToggleOneShotFlagB => RegCRB
  end.

Definition toggle_bit (t : Toggle) : Z :=
  match t with
  | ToggleInterruptEnableFlagA | TogglePendingSignalFlagA => 0
  | ToggleInterruptEnableFlagB | TogglePendingSignalFlagB => 1
  | ToggleStartFlagA | ToggleStartFlagB => 0
  | ToggleUnderflowFlagA | ToggleUnderflowFlagB => 1
  | ToggleOneShotFlagA | ToggleOneShotFlagB => 3
  end.

(** ** The flag accessors as one family *)

(** The twelve [is.../set...] pairs of the header that read and write one
    bit of a register. *)
Inductive Flag : Type :=
  | InterruptEnabledA
  | SignalPendingA
  | InterruptEnabledB
  | SignalPendingB
  | InterruptEnabledTOD
  | InterruptEnabledFlg
  | StartedA
  | IndicateUnderflowA
  | OneShotA
  | StartedB
  | IndicateUnderflowB
  | OneShotB.

Definition get_flag (f : Flag) (c : CIA) : bool :=
  match f with
  | InterruptEnabledA => isInterruptEnabledA c
  | SignalPendingA => isSignalPendingA c
  | InterruptEnabledB => isInterruptEnabledB c
  | SignalPendingB => isSignalPendingB c
  | InterruptEnabledTOD => isInterruptEnabledTOD c
  | InterruptEnabledFlg => isInterruptEnabledFlg c
  | StartedA => isStartedA c
  | IndicateUnderflowA => willIndicateUnderflowA c
  | OneShotA => isOneShotA c
  | StartedB => isStartedB c
  | IndicateUnderflowB => willIndicateUnderflowB c
  | OneShotB => isOneShotB c
  end.

Definition set_flag (f : Flag) (b : bool) (c : CIA) : CIA :=
  match f with
  | InterruptEnabledA => setInterruptEnabledA b c
  | SignalPendingA => setSignalPendingA b c
  | InterruptEnabledB => setInterruptEnabledB b c
  | SignalPendingB => setSignalPendingB b c
  | InterruptEnabledTOD => setInterruptEnabledTOD b c
  | InterruptEnabledFlg => setInterruptEnabledFlg b c
  | StartedA => setStartedA b c
  | IndicateUnderflowA => setIndicateUnderflowA b c
  | OneShotA => setOneShotA b c
  | StartedB => setStartedB b c
  | IndicateUnderflowB => setIndicateUnderflowB b c
  | OneShotB => setOneShotB b c
  end.

(** Register and bit position of each pair, as the header's masks give
    them. *)
Definition flag_register (f : Flag) : Register :=
  match f with
  | InterruptEnabledA | InterruptEnabledB => RegIMR
  | SignalPendingA | SignalPendingB
  | InterruptEnabledTOD | InterruptEnabledFlg => RegICR
  | StartedA | IndicateUnderflowA | OneShotA => RegCRA
  | StartedB | IndicateUnderflowB | OneShotB => RegCRB
  end.

Definition flag_bit (f : Flag) : Z :=
  match f with
  | InterruptEnabledA | SignalPendingA | StartedA | StartedB => 0
  | InterruptEnabledB | SignalPendingB
  | IndicateUnderflowA | IndicateUnderflowB => 1
  | InterruptEnabledTOD => 2
  | OneShotA | OneShotB => 3
  | InterruptEnabledFlg => 4
  end.

(** Bit [k] of [x] set to [b]. *)
Definition with_bit (k : Z) (b : bool) (x : Z) : Z :=
  if b then Z.lor x (2 ^ k) else Z.ldiff x (2 ^ k).

End CIA_state.

Arguments CIA : clear implicits.

(** ** Address windows (CIA.h, lines 124-127, 230, 551-554, 582, 615-618, 640) *)

Definition CIA_START_ADDR : Z := 0xDC00.
Definition CIA_END_ADDR : Z := 0xDDFF.
Definition CIA1_START_ADDR : Z := 0xDC00.
Definition CIA1_END_ADDR : Z := 0xDCFF.
Definition CIA2_START_ADDR : Z := 0xDD00.
Definition CIA2_END_ADDR : Z := 0xDDFF.

Definition isCiaAddr (addr : Z) : bool :=
  (CIA_START_ADDR <=? addr) && (addr <=? CIA_END_ADDR).

Definition isCia1Addr (addr : Z) : bool :=
  (CIA1_START_ADDR <=? addr) && (addr <=? CIA1_END_ADDR).

Definition isCia2Addr (addr : Z) : bool :=
  (CIA2_START_ADDR <=? addr) && (addr <=? CIA2_END_ADDR).

(** ** A concrete chip state *)

(** A state with the clock left out ([TOD := unit]): both timers loaded,
    timer A started, one pending and enabled timer-A interrupt. *)
Definition sample_cia : CIA unit :=
  mkCIA 0 false 0 0 false false 0x1234 0xBEEF 0x0042 0x00FF tt
    (Z.lor CountA2 (Z.lor CountA3 (Z.lor CountB2 LoadA1))) CountA0
    0x01 0x40 0x01 0x01 0 0 0 0 0 0xFF 0 0xFF 0xFF true true.

(** * basic.cpp: character, number and path helpers *)

(** ** Characters (basic.cpp, lines 54-74) *)

Definition petscii2printable (c subst : Z) : Z :=
  if (0x20 <=? c) && (c <=? 0x7E) then c else subst.

(** [toupper] of <ctype.h> in the "C" locale, on an [unsigned char] value:
    the letters a-z become A-Z, every other value is returned as it is. *)
Definition toupper (ch : Z) : Z :=
  if (0x61 <=? ch) && (ch <=? 0x7A) then ch - 0x20 else ch.

Definition ascii2pet (asciichar : Z) : Z :=
  if asciichar =? 0x00 then 0x00
  else
    let asciichar := to_uint8 (toupper asciichar) in
    if (0x20 <=? asciichar) && (asciichar <=? 0x5D) then asciichar else 0x20.

(** ** Arrays *)

(** A [char] or [uint16_t] array is the list of its elements, and
    [s[i] = v] replaces element [i].  A write past the end is undefined in
    C; here it leaves the list as it is, and the theorems below assume the
    room a function needs. *)
Definition store (i : nat) (v : Z) (s : list Z) : list Z :=
  if (i <? length s)%nat then firstn i s ++ v :: skipn (S i) s else s.

(** A C string is the list of its characters before the terminating NUL,
    as [unsigned char] values. *)
Definition cstring (s : list Z) : Prop := Forall (fun ch => 0 < ch < 2 ^ 8) s.

(** ** Printing numbers (basic.cpp, lines 76-138) *)

(** [for (int i = n - 1; i >= 0; i--) { uint8_t digit = value % 10;
    s[i] = '0' + digit; value /= 10; }] *)
Fixpoint sprintd_loop (n : nat) (s : list Z) (value : Z) : list Z :=
  match n with
  | O => s
  | S i =>
      let digit := to_uint8 (value mod 10) in
      sprintd_loop i (store i (0x30 + digit) s) (value / 10)
  end.

Definition sprint8d (s : list Z) (value : Z) : list Z :=
  store 3 0 (sprintd_loop 3 s value).

Definition sprint16d (s : list Z) (value : Z) : list Z :=
  store 5 0 (sprintd_loop 5 s value).

(** [(digit <= 9) ? ('0' + digit) : ('A' + digit - 10)] *)
Definition hex_char (digit : Z) : Z :=
  if digit <=? 9 then 0x30 + digit else 0x41 + digit - 10.

Fixpoint sprintx_loop (n : nat) (s : list Z) (value : Z) : list Z :=
  match n with
  | O => s
  | S i =>
      let digit := to_uint8 (value mod 16) in
      sprintx_loop i (store i (hex_char digit) s) (value / 16)
  end.

Definition sprint8x (s : list Z) (value : Z) : list Z :=
  store 2 0 (sprintx_loop 2 s value).

Definition sprint16x (s : list Z) (value : Z) : list Z :=
  store 4 0 (sprintx_loop 4 s value).

(** [s[i] = (value & 0x01) ? '1' : '0'; value >>= 1;] *)
Fixpoint sprintb_loop (n : nat) (s : list Z) (value : Z) : list Z :=
  match n with
  | O => s
  | S i =>
      sprintb_loop i
        (store i (if to_bool (Z.land value 0x01) then 0x31 else 0x30) s)
        (Z.shiftr value 1)
  end.

Definition sprint8b (s : list Z) (value : Z) : list Z :=
  store 8 0 (sprintb_loop 8 s value).

Definition sprint16b (s : list Z) (value : Z) : list Z :=
  store 16 0 (sprintb_loop 16 s value).

(** The number a string of decimal, hexadecimal or binary digits denotes,
    to read the printed strings back. *)
Definition decimal_value (digits : list Z) : Z :=
  fold_left (fun acc ch => acc * 10 + (ch - 0x30)) digits 0.

Definition hex_digit_value (ch : Z) : Z :=
  if ch <=? 0x39 then ch - 0x30 else ch - 0x41 + 10.

Definition hex_value (digits : list Z) : Z :=
  fold_left (fun acc ch => acc * 16 + hex_digit_value ch) digits 0.

Definition binary_value (digits : list Z) : Z :=
  fold_left (fun acc ch => acc * 2 + (ch - 0x30)) digits 0.

(** ** PETSCII to Unicode (basic.cpp, lines 41-52) *)

(** Conversion to [unsigned], 32 bits wide. *)
Definition to_uint32 (z : Z) : Z := z mod 2 ^ 32.

(** The loop [for (i = 0; i < strlen(petscii) && i < max; i++)
    unicode[i] = base + (unsigned char)petscii[i];], from the value [i] of
    the counter on.  The counter is an [unsigned]: [i++] wraps at 2^32,
    while [strlen(petscii)] and [max] are [size_t] values and are compared
    without wrapping.  [fuel] bounds the number of times the condition is
    tested; the result is [None] when the loop has not ended by then, and
    otherwise the array and the value of [i] at the exit. *)
Fixpoint translateToUnicode_loop (fuel : nat) (petscii : list Z) (i : Z)
    (unicode : list Z) (base max : Z) : option (list Z * Z) :=
  match fuel with
  | O => None
  | S fuel' =>
      if (i <? Z.of_nat (length petscii)) && (i <? max)
      then translateToUnicode_loop fuel' petscii (to_uint32 (i + 1))
             (store (Z.to_nat i)
                (to_uint16 (base + nth (Z.to_nat i) petscii 0)) unicode)
             base max
      else Some (unicode, i)
  end.

(** The loop from [i = 0], then [unicode[i] = 0;]. *)
Definition translateToUnicode (fuel : nat) (petscii unicode : list Z)
    (base max : Z) : option (list Z) :=
  match translateToUnicode_loop fuel petscii 0 unicode base max with
  | Some (unicode', i) => Some (store (Z.to_nat i) 0 unicode')
  | None => None
  end.

(** ** Paths (basic.cpp, lines 140-191) *)

(** [strrchr(s, ch)] of <string.h> for a character [ch] other than NUL: the
    tail of [s] that starts at the last [ch], if [s] has one. *)
Fixpoint strrchr (s : list Z) (ch : Z) : option (list Z) :=
  match s with
  | [] => None
  | x :: r =>
      match strrchr r ch with
      | Some pos => Some pos
      | None => if x =? ch then Some (x :: r) else None
      end
  end.

(** [strcmp] of <string.h>: zero on equal strings, otherwise the difference
    of the first two characters that differ (the terminator counts as 0). *)
Fixpoint strcmp (a b : list Z) : Z :=
  match a, b with
  | [], [] => 0
  | [], y :: _ => 0 - y
  | x :: _, [] => x - 0
  | x :: a', y :: b' => if x =? y then strcmp a' b' else x - y
  end.

Definition ExtractFilename (path : list Z) : list Z :=
  match strrchr path 0x2F with
  | Some pos => skipn 1 pos
  | None => path
  end.

Definition ExtractSuffix (path : list Z) : list Z :=
  match strrchr path 0x2E with
  | Some pos => skipn 1 pos
  | None => []
  end.

(** [strndup(filename, strlen(filename) - strlen(suffix) - 1)]: the count is
    a [size_t], computed modulo 2^64. *)
Definition ExtractFilenameWithoutSuffix (path : list Z) : list Z :=
  let filename := ExtractFilename path in
  let suffix := ExtractSuffix filename in
  if (length suffix =? 0)%nat then filename
  else
    firstn
      (Z.to_nat (to_uint64 (Z.of_nat (length filename)
                            - Z.of_nat (length suffix) - 1)))
      filename.

Definition checkFileSuffix (filename suffix : list Z) : bool :=
  if (length filename <? length suffix)%nat then false
  else
    if strcmp (skipn (length filename - length suffix) filename) suffix =? 0
    then true else false.

(** * CustomCartridges.cpp: bank switching *)

(** The calls a cartridge makes on the expansion port and on its base class
    [Cartridge].  Both classes are declared in other files, so a call is
    recorded as it is made, with the argument it is given. *)
Inductive CartridgeCall : Type :=
  | setGameLine (value : Z)
  | setExromLine (value : Z)
  | bankIn (nr : Z).

(** [FinalIII::peekIO1] and [FinalIII::peekIO2] (lines 60-74), over the
    [peek(uint16_t)] of the base class. *)
Definition FinalIII_peekIO1 (peek : Z -> Z) (addr : Z) : Z :=
  let offset := to_uint16 (addr - 0xDE00) in
  peek (to_uint16 (0x8000 + 0x1E00 + offset)).

Definition FinalIII_peekIO2 (peek : Z -> Z) (addr : Z) : Z :=
  let offset := to_uint16 (addr - 0xDF00) in
  peek (to_uint16 (0x8000 + 0x1F00 + offset)).

(** [Funplay::pokeIO1] (lines 205-229): the calls made, or [None] when
    [assert(bank < 16)] fails. *)
Definition Funplay_pokeIO1 (addr value : Z) : option (list CartridgeCall) :=
  if addr =? 0xDE00 then
    if value =? 0x86 then Some [setGameLine 1; setExromLine 1]
    else
      let bank :=
        to_uint8 (Z.lor (Z.land (Z.shiftr value 3) 0x07)
                        (Z.land (Z.shiftl value 3) 0x08)) in
      if bank <? 16 then Some [bankIn bank] else None
  else Some [].

(** [MagicDesk::peekIO1] and [MagicDesk::pokeIO1] (lines 441-464), on the
    member [regValue]: the new [regValue] and the calls made. *)
Definition MagicDesk_peekIO1 (regValue addr : Z) : Z := regValue.

Definition MagicDesk_pokeIO1 (regValue addr value : Z)
    : Z * list CartridgeCall :=
  let regValue := to_uint8 (Z.land value 0x8F) in
  if addr =? 0xDE00
  then (regValue, [setExromLine (Z.land value 0x80); bankIn (Z.land value 0x0F)])
  else (regValue, []).

(** [Comal80::peekIO1] and [Comal80::pokeIO1] (lines 479-519). *)
Definition Comal80_peekIO1 (regValue addr : Z) : Z := regValue.

Definition Comal80_pokeIO1 (regValue addr value : Z)
    : Z * list CartridgeCall :=
  if (0xDE00 <=? addr) && (addr <=? 0xDEFF) then
    (to_uint8 (Z.land value 0xC7),
     bankIn (Z.land value 0x03)
     :: (if Z.land value 0xE0 =? 0xe0 then [setExromLine 1; setGameLine 1]
         else if Z.land value 0xE0 =? 0x40 then [setExromLine 0; setGameLine 1]
         else [setExromLine 0; setGameLine 0]))
  else (regValue, []).

(** * Properties *)

(** ** Checking a property on every value of a small range *)

Lemma range_forallb (n : nat) (P : Z -> bool) :
  forallb P (map Z.of_nat (seq 0 n)) = true ->
  forall x, 0 <= x < Z.of_nat n -> P x = true.
Proof.
  intros Hall x Hx.
  rewrite forallb_forall in Hall. apply Hall.
  replace x with (Z.of_nat (Z.to_nat x)) by lia.
  apply in_map, in_seq. lia.
Qed.

Lemma uint8_forallb (P : Z -> bool) :
  forallb P (map Z.of_nat (seq 0 256)) = true ->
  forall x, uint8 x -> P x = true.
Proof.
  intros Hall x Hx. apply (range_forallb 256 P Hall).
  unfold uint8 in Hx. change (Z.of_nat 256) with (2 ^ 8). exact Hx.
Qed.

Lemma distinctb_NoDup (l : list Z) : distinctb l = true -> NoDup l.
Proof.
  induction l as [|x r IH]; simpl; intros H.
  - constructor.
  - apply andb_true_iff in H. destruct H as [Hx Hr].
    constructor; [|auto].
    intros Hin. apply negb_true_iff in Hx.
    assert (existsb (Z.eqb x) r = true) as E.
    { apply existsb_exists. exists x. split; [exact Hin | apply Z.eqb_refl]. }
    congruence.
Qed.

Lemma single_bit64_spec (e : Z) :
  single_bit64 e = true -> exists k, 0 <= k < 64 /\ e = 2 ^ k.
Proof.
  unfold single_bit64. intros H.
  apply existsb_exists in H. destruct H as [k [Hin Hk]].
  apply in_seq in Hin. apply Z.eqb_eq in Hk.
  exists (Z.of_nat k). split; [lia | exact Hk].
Qed.

Lemma uint64_testbit_high (x i : Z) : uint64 x -> 64 <= i -> Z.testbit x i = false.
Proof.
  intros Hx Hi. unfold uint64 in Hx.
  rewrite <- (Z.mod_small x (2 ^ 64)) by exact Hx.
  apply Z.mod_pow2_bits_high. lia.
Qed.

Lemma to_uint64_range (z : Z) : uint64 (to_uint64 z).
Proof. unfold uint64, to_uint64. apply Z.mod_pos_bound. reflexivity. Qed.

Lemma DelayMask_uint64 : uint64 DelayMask.
Proof. apply to_uint64_range. Qed.

(** Bit [i] of [DelayMask] is clear exactly on the stage-0 positions. *)
Lemma DelayMask_testbit (i : Z) :
  0 <= i < 64 -> Z.testbit DelayMask i = negb (is_stage0_bit i).
Proof.
  intros Hi.
  apply Bool.eqb_prop.
  apply (range_forallb 64
           (fun i => Bool.eqb (Z.testbit DelayMask i) (negb (is_stage0_bit i)))).
  - vm_compute. reflexivity.
  - exact Hi.
Qed.

(** ** The event constants and DelayMask *)

(** C8. The fifty event constants of the header are single bits of a
    64-bit word and pairwise distinct; the nineteen stage-0 events are among
    them; [DelayMask] is the 64-bit complement of their union, so that
    [x & DelayMask] clears the stage-0 bits of [x] and keeps every other
    bit. *)
Theorem DelayMask_clears_exactly_stage0 :
  Forall (fun e => exists k, 0 <= k < 64 /\ e = 2 ^ k) delay_events /\
  NoDup delay_events /\
  length delay_events = 50%nat /\
  length stage0_events = 19%nat /\
  incl stage0_events delay_events /\
  DelayMask = 2 ^ 64 - 1 - fold_right Z.lor 0 stage0_events /\
  DelayMask = Z.lxor (fold_right Z.lor 0 stage0_events) (Z.ones 64) /\
  (forall e, In e stage0_events -> Z.land e DelayMask = 0) /\
  (forall e, In e delay_events -> ~ In e stage0_events -> Z.land e DelayMask = e) /\
  (forall x i, Z.testbit (Z.land (to_uint64 x) DelayMask) i =
               Z.testbit (to_uint64 x) i && negb (is_stage0_bit i)).
Proof.
  split; [|split; [|split; [|split; [|split; [|split; [|split; [|split; [|split]]]]]]]].
  - apply Forall_forall. intros e He. apply single_bit64_spec.
    assert (forallb single_bit64 delay_events = true) as A by (vm_compute; reflexivity).
    rewrite forallb_forall in A. apply A, He.
  - apply distinctb_NoDup. vm_compute. reflexivity.
  - reflexivity.
  - reflexivity.
  - intros e He.
    assert (forallb (fun e => existsb (Z.eqb e) delay_events) stage0_events = true)
      as A by (vm_compute; reflexivity).
    rewrite forallb_forall in A. specialize (A e He).
    apply existsb_exists in A. destruct A as [e' [Hin Heq]].
    apply Z.eqb_eq in Heq. subst e'. exact Hin.
  - vm_compute. reflexivity.
  - vm_compute. reflexivity.
  - intros e He.
    assert (forallb (fun e => Z.land e DelayMask =? 0) stage0_events = true)
      as A by (vm_compute; reflexivity).
    rewrite forallb_forall in A. apply Z.eqb_eq, A, He.
  - intros e He Hn.
    assert (forallb (fun e => existsb (Z.eqb e) stage0_events
                              || (Z.land e DelayMask =? e)) delay_events = true)
      as A by (vm_compute; reflexivity).
    rewrite forallb_forall in A. specialize (A e He).
    apply orb_true_iff in A. destruct A as [A | A].
    + exfalso. apply Hn.
      apply existsb_exists in A. destruct A as [e' [Hin Heq]].
      apply Z.eqb_eq in Heq. subst e'. exact Hin.
    + apply Z.eqb_eq, A.
  - intros x i. rewrite Z.land_spec.
    destruct (Z.ltb_spec i 0) as [Hneg | Hnn].
    + rewrite !Z.testbit_neg_r by lia. reflexivity.
    + destruct (Z.ltb_spec i 64) as [Hlo | Hhi].
      * rewrite DelayMask_testbit by lia. reflexivity.
      * rewrite (uint64_testbit_high (to_uint64 x) i) by (apply to_uint64_range || lia).
        reflexivity.
Qed.

(** ** Address windows *)

(** C6. For a 16-bit address, [isCiaAddr] holds exactly on 0xDC00..0xDDFF,
    [isCia1Addr] exactly on the 256 addresses 0xDC00 + k and [isCia2Addr]
    exactly on the 256 addresses 0xDD00 + k (k < 256); the two chip windows
    are disjoint, their union is the CIA range, and inside the CIA range
    exactly one of them holds. *)
Theorem cia_address_windows (a : Z) :
  uint16 a ->
  (isCiaAddr a = true <-> 0xDC00 <= a <= 0xDDFF) /\
  (isCia1Addr a = true <-> 0xDC00 <= a <= 0xDCFF) /\
  (isCia2Addr a = true <-> 0xDD00 <= a <= 0xDDFF) /\
  (isCia1Addr a = true <-> exists k, 0 <= k < 256 /\ a = 0xDC00 + k) /\
  (isCia2Addr a = true <-> exists k, 0 <= k < 256 /\ a = 0xDD00 + k) /\
  isCia1Addr a && isCia2Addr a = false /\
  isCiaAddr a = isCia1Addr a || isCia2Addr a /\
  (isCiaAddr a = true -> xorb (isCia1Addr a) (isCia2Addr a) = true).
Proof.
  intros _.
  unfold isCiaAddr, isCia1Addr, isCia2Addr,
    CIA_START_ADDR, CIA_END_ADDR, CIA1_START_ADDR, CIA1_END_ADDR,
    CIA2_START_ADDR, CIA2_END_ADDR.
  repeat split; intros;
    repeat match goal with
    | H : _ && _ = true |- _ => apply andb_true_iff in H; destruct H
    | H : exists _, _ |- _ => destruct H as [? [? ?]]
    | |- _ && _ = true => apply andb_true_iff; split
    | |- exists k, _ /\ a = ?base + k => exists (a - base)
    end;
    try lia;
    try (destruct (Z.leb_spec 0xDC00 a), (Z.leb_spec a 0xDDFF),
           (Z.leb_spec a 0xDCFF), (Z.leb_spec 0xDD00 a); simpl; try reflexivity; lia).
Qed.

Lemma cia_address_windows_witness :
  isCiaAddr 0xDD0D = true /\ isCia1Addr 0xDD0D = false /\ isCia2Addr 0xDD0D = true.
Proof.
  assert (uint16 0xDD0D) as Ha by (unfold uint16; lia).
  destruct (cia_address_windows 0xDD0D Ha) as [_ [_ [H2 [_ [_ [Hd _]]]]]].
  assert (isCia2Addr 0xDD0D = true) as E2 by (apply H2; lia).
  rewrite E2, andb_true_r in Hd.
  split; [reflexivity | split; [exact Hd | exact E2]].
Defined.

(** ** Flag bits of an 8-bit register *)

Lemma byte_flag_test (x m : Z) :
  uint8 x -> In m flag_masks ->
  to_bool (Z.land x m) = Z.testbit x (Z.log2 m).
Proof.
  intros Hx Hm. apply Bool.eqb_prop. revert m Hm. apply forallb_forall.
  revert x Hx. apply uint8_forallb. vm_compute. reflexivity.
Qed.

Lemma byte_flag_set (x m : Z) :
  uint8 x -> In m flag_masks ->
  to_uint8 (Z.lor x m) = Z.lor x m.
Proof.
  intros Hx Hm. apply Z.eqb_eq. revert m Hm. apply forallb_forall.
  revert x Hx. apply uint8_forallb. vm_compute. reflexivity.
Qed.

Lemma byte_flag_clear (x m : Z) :
  uint8 x -> In m flag_masks ->
  to_uint8 (Z.land x (0xff - m)) = Z.ldiff x m.
Proof.
  intros Hx Hm. apply Z.eqb_eq. revert m Hm. apply forallb_forall.
  revert x Hx. apply uint8_forallb. vm_compute. reflexivity.
Qed.

Lemma byte_flag_flip_up (x m : Z) :
  uint8 x -> In m flag_masks ->
  to_bool (Z.land x m) = false -> to_uint8 (Z.lor x m) = Z.lxor x m.
Proof.
  intros Hx Hm E.
  assert (implb (negb (to_bool (Z.land x m)))
                (to_uint8 (Z.lor x m) =? Z.lxor x m) = true) as A.
  { clear E. revert m Hm. apply forallb_forall.
    revert x Hx. apply uint8_forallb. vm_compute. reflexivity. }
  rewrite E in A. apply Z.eqb_eq, A.
Qed.

Lemma byte_flag_flip_down (x m : Z) :
  uint8 x -> In m flag_masks ->
  to_bool (Z.land x m) = true -> to_uint8 (Z.land x (0xff - m)) = Z.lxor x m.
Proof.
  intros Hx Hm E.
  assert (implb (to_bool (Z.land x m))
                (to_uint8 (Z.land x (0xff - m)) =? Z.lxor x m) = true) as A.
  { clear E. revert m Hm. apply forallb_forall.
    revert x Hx. apply uint8_forallb. vm_compute. reflexivity. }
  rewrite E in A. apply Z.eqb_eq, A.
Qed.

Lemma byte_flag_lxor_range (x m : Z) :
  uint8 x -> In m flag_masks -> uint8 (Z.lxor x m).
Proof.
  intros Hx Hm.
  assert ((0 <=? Z.lxor x m) && (Z.lxor x m <? 2 ^ 8) = true) as A.
  { revert m Hm. apply forallb_forall.
    revert x Hx. apply uint8_forallb. vm_compute. reflexivity. }
  apply andb_true_iff in A. destruct A as [A1 A2].
  apply Z.leb_le in A1. apply Z.ltb_lt in A2. unfold uint8. lia.
Qed.

(** ** Bit-level facts on 16-bit and 64-bit members *)

Lemma clear_bit_uint64 (d m : Z) :
  uint64 d -> to_uint64 (Z.land d (to_uint64 (Z.lnot m))) = Z.ldiff d m.
Proof.
  intros Hd. unfold to_uint64, uint64 in *.
  rewrite <- (Z.mod_small d (2 ^ 64)) at 2 by exact Hd.
  rewrite <- (Z.mod_small d (2 ^ 64)) at 1 by exact Hd.
  Z.bitblast.
Qed.

Lemma lo_after_lo_write (l v : Z) :
  uint8 v -> to_uint8 (Z.land (to_uint16 (Z.lor (Z.land l 0xFF00) v)) 0xFF) = v.
Proof.
  intros Hv. unfold to_uint8, to_uint16, uint8 in *.
  rewrite <- (Z.mod_small v (2 ^ 8)) by exact Hv.
  change 0xFF00 with (Z.shiftl (Z.ones 8) 8). change 0xFF with (Z.ones 8).
  Z.bitblast.
Qed.

Lemma hi_after_lo_write (l v : Z) :
  uint8 v ->
  to_uint8 (Z.shiftr (to_uint16 (Z.lor (Z.land l 0xFF00) v)) 8) =
  to_uint8 (Z.shiftr l 8).
Proof.
  intros Hv. unfold to_uint8, to_uint16, uint8 in *.
  rewrite <- (Z.mod_small v (2 ^ 8)) by exact Hv.
  change 0xFF00 with (Z.shiftl (Z.ones 8) 8).
  Z.bitblast.
Qed.

Lemma hi_after_hi_write (l v : Z) :
  uint8 v ->
  to_uint8 (Z.shiftr (to_uint16 (Z.lor (Z.shiftl v 8) (Z.land l 0xFF))) 8) = v.
Proof.
  intros Hv. unfold to_uint8, to_uint16, uint8 in *.
  rewrite <- (Z.mod_small v (2 ^ 8)) by exact Hv.
  change 0xFF with (Z.ones 8).
  Z.bitblast.
Qed.

Lemma lo_after_hi_write (l v : Z) :
  to_uint8 (Z.land (to_uint16 (Z.lor (Z.shiftl v 8) (Z.land l 0xFF))) 0xFF) =
  to_uint8 (Z.land l 0xFF).
Proof.
  unfold to_uint8, to_uint16.
  change 0xFF with (Z.ones 8).
  Z.bitblast.
  all: rewrite Z.testbit_neg_r by lia; btauto.
Qed.

Section CIA_properties.

Context {TOD : Type}.
Implicit Types c : CIA TOD.

(** ** Assignments to a register *)

Lemma set_register_get (r : Register) c : set_register r (get_register r c) c = c.
Proof. destruct r, c; reflexivity. Qed.

Lemma set_register_twice (r : Register) (v w : Z) c :
  set_register r v (set_register r w c) = set_register r v c.
Proof. destruct r; reflexivity. Qed.

Lemma get_set_register (r : Register) (v : Z) c :
  get_register r (set_register r v c) = v.
Proof. destruct r; reflexivity. Qed.

Lemma get_set_register_other (r r' : Register) (v : Z) c :
  r' <> r -> get_register r' (set_register r v c) = get_register r' c.
Proof. destruct r, r'; intros H; try reflexivity; contradiction H; reflexivity. Qed.

Lemma valid_get_register (r : Register) c : valid_CIA c -> uint8 (get_register r c).
Proof. unfold valid_CIA. destruct r; simpl; tauto. Qed.

Lemma valid_set_register (r : Register) (v : Z) c :
  valid_CIA c -> uint8 v -> valid_CIA (set_register r v c).
Proof. unfold valid_CIA. destruct r; simpl; tauto. Qed.

(** ** Timer reload *)

(** C5. On a valid state [reloadTimerA] copies [latchA] into [counterA] and
    clears bit 2 ([CountA2]) of [delay]; every other bit of [delay] and
    every other member keeps its value.  [reloadTimerB] does the same with
    [latchB], [counterB] and bit 6 ([CountB2]). *)
Theorem reloadTimer_effect_and_frame c :
  valid_CIA c ->
  (counterA (reloadTimerA c) = latchA c /\
   (forall i, Z.testbit (delay (reloadTimerA c)) i =
              Z.testbit (delay c) i && negb (i =? 2)) /\
   reloadTimerA c =
     set_delay (Z.ldiff (delay c) CountA2) (set_counterA (latchA c) c) /\
   feed (reloadTimerA c) = feed c /\
   counterB (reloadTimerA c) = counterB c /\
   latchA (reloadTimerA c) = latchA c /\
   latchB (reloadTimerA c) = latchB c /\
   CRA (reloadTimerA c) = CRA c /\ CRB (reloadTimerA c) = CRB c /\
   ICR (reloadTimerA c) = ICR c /\ IMR (reloadTimerA c) = IMR c) /\
  (counterB (reloadTimerB c) = latchB c /\
   (forall i, Z.testbit (delay (reloadTimerB c)) i =
              Z.testbit (delay c) i && negb (i =? 6)) /\
   reloadTimerB c =
     set_delay (Z.ldiff (delay c) CountB2) (set_counterB (latchB c) c) /\
   feed (reloadTimerB c) = feed c /\
   counterA (reloadTimerB c) = counterA c /\
   latchA (reloadTimerB c) = latchA c /\
   latchB (reloadTimerB c) = latchB c /\
   CRA (reloadTimerB c) = CRA c /\ CRB (reloadTimerB c) = CRB c /\
   ICR (reloadTimerB c) = ICR c /\ IMR (reloadTimerB c) = IMR c).
Proof.
  intros Hc.
  assert (uint64 (delay c)) as Hd by (unfold valid_CIA in Hc; tauto).
  assert (forall k i, 0 <= k -> Z.testbit (Z.ldiff (delay c) (2 ^ k)) i =
                        Z.testbit (delay c) i && negb (i =? k)) as Hbit.
  { intros k i Hk. rewrite Z.ldiff_spec, Z.pow2_bits_eqb by exact Hk.
    rewrite (Z.eqb_sym k i). reflexivity. }
  split.
  - unfold reloadTimerA. cbn [delay counterA set_delay set_counterA].
    rewrite (clear_bit_uint64 (delay c) CountA2 Hd).
    repeat split; try reflexivity.
    intros i. change CountA2 with (2 ^ 2). apply Hbit. lia.
  - unfold reloadTimerB. cbn [delay counterB set_delay set_counterB].
    rewrite (clear_bit_uint64 (delay c) CountB2 Hd).
    repeat split; try reflexivity.
    intros i. change CountB2 with (2 ^ 6). apply Hbit. lia.
Qed.

(** ** Latch halves *)

(** C7. Writing a byte into one half of a timer latch makes the getter of
    that half return the byte and leaves the other half and both counters as
    they were; this holds for the four half-writes of latch A and latch B. *)
Theorem latch_half_write_roundtrip c (v : Z) :
  uint8 v ->
  (getLatchALo (setLatchALo v c) = v /\
   getLatchAHi (setLatchALo v c) = getLatchAHi c /\
   getCounterA (setLatchALo v c) = getCounterA c /\
   getCounterB (setLatchALo v c) = getCounterB c) /\
  (getLatchAHi (setLatchAHi v c) = v /\
   getLatchALo (setLatchAHi v c) = getLatchALo c /\
   getCounterA (setLatchAHi v c) = getCounterA c /\
   getCounterB (setLatchAHi v c) = getCounterB c) /\
  (getLatchBLo (setLatchBLo v c) = v /\
   getLatchBHi (setLatchBLo v c) = getLatchBHi c /\
   getCounterA (setLatchBLo v c) = getCounterA c /\
   getCounterB (setLatchBLo v c) = getCounterB c) /\
  (getLatchBHi (setLatchBHi v c) = v /\
   getLatchBLo (setLatchBHi v c) = getLatchBLo c /\
   getCounterA (setLatchBHi v c) = getCounterA c /\
   getCounterB (setLatchBHi v c) = getCounterB c).
Proof.
  intros Hv.
  unfold getLatchALo, getLatchAHi, getLatchBLo, getLatchBHi,
    setLatchALo, setLatchAHi, setLatchBLo, setLatchBHi, getCounterA, getCounterB.
  cbn [latchA latchB counterA counterB set_latchA set_latchB].
  repeat split;
    auto using lo_after_lo_write, hi_after_lo_write, hi_after_hi_write,
      lo_after_hi_write.
Qed.

(** ** Control registers *)

(** C9. [getControlRegA] returns a [bool]: after [setControlRegA v] it
    yields 1 when the byte [v] is non-zero and 0 when [v] is zero, so the
    value read back equals [v] only for [v] in {0, 1}; the same for
    [setControlRegB] and [getControlRegB]. *)
Theorem getControlReg_truncates_to_bool c (v : Z) :
  uint8 v ->
  (getControlRegA (setControlRegA v c) = negb (v =? 0) /\
   (v <> 0 -> Z.b2z (getControlRegA (setControlRegA v c)) = 1) /\
   (v = 0 -> Z.b2z (getControlRegA (setControlRegA v c)) = 0) /\
   (Z.b2z (getControlRegA (setControlRegA v c)) = v <-> v = 0 \/ v = 1)) /\
  (getControlRegB (setControlRegB v c) = negb (v =? 0) /\
   (v <> 0 -> Z.b2z (getControlRegB (setControlRegB v c)) = 1) /\
   (v = 0 -> Z.b2z (getControlRegB (setControlRegB v c)) = 0) /\
   (Z.b2z (getControlRegB (setControlRegB v c)) = v <-> v = 0 \/ v = 1)).
Proof.
  intros _.
  unfold getControlRegA, getControlRegB, setControlRegA, setControlRegB, to_bool.
  cbn [CRA CRB set_CRA set_CRB].
  destruct (Z.eqb_spec v 0) as [E | E]; simpl; repeat split; intros; lia.
Qed.

(** ** Toggle helpers *)

Lemma toggle_mask_is_flag (t : Toggle) : In (2 ^ toggle_bit t) flag_masks.
Proof. destruct t; simpl; tauto. Qed.

(** Each helper is [set(!is())]: whichever branch the setter takes, the
    addressed bit of the register is inverted. *)
Ltac flip_flag Hx :=
  match goal with
  | |- context [negb (to_bool (Z.land ?x ?m))] =>
      let E := fresh "E" in
      destruct (to_bool (Z.land x m)) eqn:E; simpl; f_equal;
      [ apply (byte_flag_flip_down x m Hx); [simpl; tauto | exact E]
      | apply (byte_flag_flip_up x m Hx); [simpl; tauto | exact E] ]
  end.

Lemma run_toggle_flips c (t : Toggle) :
  uint8 (get_register (toggle_register t) c) ->
  run_toggle t c =
  set_register (toggle_register t)
    (Z.lxor (get_register (toggle_register t) c) (2 ^ toggle_bit t)) c.
Proof.
  intros Hx.
  destruct t; cbn [run_toggle toggle_register toggle_bit get_register set_register] in *;
    unfold toggleInterruptEnableFlagA, togglePendingSignalFlagA,
      toggleInterruptEnableFlagB, togglePendingSignalFlagB,
      toggleStartFlagA, toggleUnderflowFlagA, toggleOneShotFlagA,
      toggleStartFlagB, toggleUnderflowFlagB, toggleOneShotFlagB,
      setInterruptEnabledA, setSignalPendingA, setInterruptEnabledB,
      setSignalPendingB, setStartedA, setIndicateUnderflowA, setOneShotA,
      setStartedB, setIndicateUnderflowB, setOneShotB,
      isInterruptEnabledA, isSignalPendingA, isInterruptEnabledB,
      isSignalPendingB, isStartedA, willIndicateUnderflowA, isOneShotA,
      isStartedB, willIndicateUnderflowB, isOneShotB;
    flip_flag Hx.
Qed.

(** C10. On a valid state each of the ten toggle helpers inverts one bit
    (bit [toggle_bit t], below 8) of the register it addresses and writes
    nothing else: the result is the state with that register replaced, the
    other registers, both counters, both latches, [delay] and [feed] keep
    their values, the result is valid, and a second call gives back the
    state the first call started from. *)
Theorem toggle_helpers_are_involutions c (t : Toggle) :
  valid_CIA c ->
  0 <= toggle_bit t < 8 /\
  run_toggle t c =
    set_register (toggle_register t)
      (Z.lxor (get_register (toggle_register t) c) (2 ^ toggle_bit t)) c /\
  (forall i, Z.testbit (get_register (toggle_register t) (run_toggle t c)) i =
             xorb (Z.testbit (get_register (toggle_register t) c) i)
                  (i =? toggle_bit t)) /\
  (forall r, r <> toggle_register t ->
             get_register r (run_toggle t c) = get_register r c) /\
  (counterA (run_toggle t c) = counterA c /\
   counterB (run_toggle t c) = counterB c /\
   latchA (run_toggle t c) = latchA c /\
   latchB (run_toggle t c) = latchB c /\
   delay (run_toggle t c) = delay c /\
   feed (run_toggle t c) = feed c /\
   INT (run_toggle t c) = INT c) /\
  valid_CIA (run_toggle t c) /\
  run_toggle t (run_toggle t c) = c.
Proof.
  intros Hc.
  pose proof (valid_get_register (toggle_register t) c Hc) as Hx.
  pose proof (run_toggle_flips c t Hx) as Hflip.
  assert (0 <= toggle_bit t < 8) as Hk by (destruct t; simpl; lia).
  assert (uint8 (Z.lxor (get_register (toggle_register t) c) (2 ^ toggle_bit t)))
    as Hx' by (apply byte_flag_lxor_range; [exact Hx | apply toggle_mask_is_flag]).
  split; [exact Hk|].
  split; [exact Hflip|].
  split.
  { intros i. rewrite Hflip, get_set_register, Z.lxor_spec.
    rewrite Z.pow2_bits_eqb by lia. rewrite (Z.eqb_sym (toggle_bit t) i).
    reflexivity. }
  split.
  { intros r Hr. rewrite Hflip. apply get_set_register_other, Hr. }
  split.
  { rewrite Hflip. destruct (toggle_register t); repeat split. }
  split.
  { rewrite Hflip. apply valid_set_register; assumption. }
  rewrite Hflip.
  rewrite run_toggle_flips by (rewrite get_set_register; exact Hx').
  rewrite get_set_register, set_register_twice.
  rewrite Z.lxor_assoc, Z.lxor_nilpotent, Z.lxor_0_r.
  apply set_register_get.
Qed.

(** ** Interrupt-enable accessors *)

(** The timer accessors work on the mask register: they set or clear bit 0
    (timer A) and bit 1 (timer B) of [IMR] and leave [ICR] alone. *)
Lemma timer_interrupt_enable_uses_IMR c (b : bool) :
  valid_CIA c ->
  IMR (setInterruptEnabledA b c) =
    (if b then Z.lor (IMR c) 0x01 else Z.ldiff (IMR c) 0x01) /\
  IMR (setInterruptEnabledB b c) =
    (if b then Z.lor (IMR c) 0x02 else Z.ldiff (IMR c) 0x02) /\
  ICR (setInterruptEnabledA b c) = ICR c /\
  ICR (setInterruptEnabledB b c) = ICR c /\
  isInterruptEnabledA c = Z.testbit (IMR c) 0 /\
  isInterruptEnabledB c = Z.testbit (IMR c) 1.
Proof.
  intros Hc. pose proof (valid_get_register RegIMR c Hc) as Hx. simpl in Hx.
  unfold setInterruptEnabledA, setInterruptEnabledB,
    isInterruptEnabledA, isInterruptEnabledB.
  repeat split; try (destruct b; reflexivity).
  - destruct b; cbn [IMR set_IMR].
    + apply (byte_flag_set _ 0x01 Hx). simpl; tauto.
    + apply (byte_flag_clear _ 0x01 Hx). simpl; tauto.
  - destruct b; cbn [IMR set_IMR].
    + apply (byte_flag_set _ 0x02 Hx). simpl; tauto.
    + apply (byte_flag_clear _ 0x02 Hx). simpl; tauto.
  - apply (byte_flag_test _ 0x01 Hx). simpl; tauto.
  - apply (byte_flag_test _ 0x02 Hx). simpl; tauto.
Qed.

(** The TOD and FLAG accessors work on the data register instead: they set
    or clear bit 2 and bit 4 of [ICR], read those bits back, and never
    write [IMR]. *)
Lemma tod_flg_interrupt_enable_uses_ICR c (b : bool) :
  valid_CIA c ->
  ICR (setInterruptEnabledTOD b c) =
    (if b then Z.lor (ICR c) 0x04 else Z.ldiff (ICR c) 0x04) /\
  ICR (setInterruptEnabledFlg b c) =
    (if b then Z.lor (ICR c) 0x10 else Z.ldiff (ICR c) 0x10) /\
  IMR (setInterruptEnabledTOD b c) = IMR c /\
  IMR (setInterruptEnabledFlg b c) = IMR c /\
  isInterruptEnabledTOD c = Z.testbit (ICR c) 2 /\
  isInterruptEnabledFlg c = Z.testbit (ICR c) 4.
Proof.
  intros Hc. pose proof (valid_get_register RegICR c Hc) as Hx. simpl in Hx.
  unfold setInterruptEnabledTOD, setInterruptEnabledFlg,
    isInterruptEnabledTOD, isInterruptEnabledFlg.
  repeat split; try (destruct b; reflexivity).
  - destruct b; cbn [ICR set_ICR].
    + apply (byte_flag_set _ 0x04 Hx). simpl; tauto.
    + apply (byte_flag_clear _ 0x04 Hx). simpl; tauto.
  - destruct b; cbn [ICR set_ICR].
    + apply (byte_flag_set _ 0x10 Hx). simpl; tauto.
    + apply (byte_flag_clear _ 0x10 Hx). simpl; tauto.
  - apply (byte_flag_test _ 0x04 Hx). simpl; tauto.
  - apply (byte_flag_test _ 0x10 Hx). simpl; tauto.
Qed.

(** ** Clock-source predicates *)

Lemma land_bit5_zero (x : Z) : (Z.land x 0x20 =? 0x00) = negb (Z.testbit x 5).
Proof.
  destruct (Z.testbit x 5) eqn:E; simpl.
  - apply Z.eqb_neq. intros H.
    assert (Z.testbit (Z.land x 0x20) 5 = false) as A
      by (rewrite H; apply Z.testbit_0_l).
    rewrite Z.land_spec, E in A. discriminate A.
  - apply Z.eqb_eq. apply Z.bits_inj'. intros n Hn.
    rewrite Z.land_spec, Z.testbit_0_l.
    change 0x20 with (2 ^ 5). rewrite Z.pow2_bits_eqb by lia.
    destruct (Z.eqb_spec 5 n) as [<- | _].
    + rewrite E. reflexivity.
    + apply andb_false_r.
Qed.

(** Both predicates test bit 5 of their control register and nothing else;
    bit 6 of [CRB] has no influence on [isCountingClockTicksB]. *)
Lemma isCountingClockTicks_tests_bit5 c :
  isCountingClockTicksA c = negb (Z.testbit (CRA c) 5) /\
  isCountingClockTicksB c = negb (Z.testbit (CRB c) 5).
Proof.
  unfold isCountingClockTicksA, isCountingClockTicksB.
  split; apply land_bit5_zero.
Qed.

(** ** DelayMask on the shifted word or on the feed word *)

(** A shift-and-feed step can apply [DelayMask] to the shifted delay word,
    [((d << 1) & DelayMask) | f], or to the feed word,
    [(d << 1) | (f & DelayMask)].  The next lemmas give bit [i] of either
    expression and say when the two coincide. *)
Lemma mask_on_shifted_word_bit (d f i : Z) :
  0 <= i < 64 ->
  Z.testbit (Z.lor (Z.land (to_uint64 (Z.shiftl d 1)) DelayMask) f) i =
  (Z.testbit d (i - 1) && negb (is_stage0_bit i)) || Z.testbit f i.
Proof.
  intros Hi. unfold to_uint64.
  rewrite Z.lor_spec, Z.land_spec.
  rewrite Z.testbit_mod_pow2, Z.shiftl_spec by lia.
  rewrite DelayMask_testbit by exact Hi.
  destruct (Z.ltb_spec i 64); [reflexivity | lia].
Qed.

Lemma mask_on_feed_bit (d f i : Z) :
  0 <= i < 64 ->
  Z.testbit (Z.lor (to_uint64 (Z.shiftl d 1)) (Z.land f DelayMask)) i =
  Z.testbit d (i - 1) || (Z.testbit f i && negb (is_stage0_bit i)).
Proof.
  intros Hi. unfold to_uint64.
  rewrite Z.lor_spec, Z.land_spec.
  rewrite Z.testbit_mod_pow2, Z.shiftl_spec by lia.
  rewrite DelayMask_testbit by exact Hi.
  destruct (Z.ltb_spec i 64); [reflexivity | lia].
Qed.

(** With the mask on the feed word a stage-0 bit of [f] never arrives; with
    the mask on the shifted word it always does.  The two expressions are
    equal exactly when [f] and the shifted [d] agree on every stage-0
    position. *)
Lemma DelayMask_on_shifted_word_or_on_feed (d f : Z) :
  uint64 f ->
  (Z.lor (Z.land (to_uint64 (Z.shiftl d 1)) DelayMask) f =
   Z.lor (to_uint64 (Z.shiftl d 1)) (Z.land f DelayMask) <->
   forall i, 0 <= i < 64 -> is_stage0_bit i = true ->
             Z.testbit f i = Z.testbit d (i - 1)).
Proof.
  intros Hf. split.
  - intros Heq i Hi Hs0.
    pose proof (mask_on_shifted_word_bit d f i Hi) as A.
    rewrite Heq, mask_on_feed_bit, Hs0 in A by exact Hi.
    destruct (Z.testbit d (i - 1)), (Z.testbit f i); simpl in A; congruence.
  - intros Hall. apply Z.bits_inj'. intros i Hi.
    destruct (Z.ltb_spec i 64) as [Hlo | Hhi].
    + rewrite mask_on_shifted_word_bit, mask_on_feed_bit by lia.
      destruct (is_stage0_bit i) eqn:Hs0; simpl.
      * rewrite (Hall i) by (lia || assumption).
        destruct (Z.testbit d (i - 1)); reflexivity.
      * rewrite !andb_true_r. reflexivity.
    + rewrite !Z.lor_spec, !Z.land_spec.
      rewrite (uint64_testbit_high (to_uint64 _) i) by (apply to_uint64_range || lia).
      rewrite (uint64_testbit_high DelayMask i) by (apply DelayMask_uint64 || lia).
      rewrite (uint64_testbit_high f i) by (assumption || lia).
      reflexivity.
Qed.

(** For instance with [CountA3] in the delay word (0x24C) and [CountA0] in
    the feed word: 0x489 with the mask on the shifted word, 0x498 with the
    mask on the feed word. *)
Lemma DelayMask_on_shifted_word_or_on_feed_example :
  Z.lor (Z.land (to_uint64 (Z.shiftl 0x24C 1)) DelayMask) CountA0 = 0x489 /\
  Z.lor (to_uint64 (Z.shiftl 0x24C 1)) (Z.land CountA0 DelayMask) = 0x498.
Proof. split; reflexivity. Qed.

End CIA_properties.

(** ** The properties on a concrete state *)

Lemma sample_cia_valid : valid_CIA sample_cia.
Proof.
  unfold valid_CIA, uint8, uint16, uint64, sample_cia.
  cbn [SDR serCounter serial_int_count counterA latchA counterB latchB delay
       feed CRA CRB ICR IMR PB67TimerMode PB67TimerOut PB67Toggle PALatch
       PBLatch DDRA DDRB PA PB].
  change (Z.lor CountA2 (Z.lor CountA3 (Z.lor CountB2 LoadA1))) with 0x24C.
  unfold CountA0. repeat split; lia.
Qed.

Lemma reloadTimer_effect_and_frame_witness :
  counterA (reloadTimerA sample_cia) = 0xBEEF /\
  Z.testbit (delay (reloadTimerA sample_cia)) 2 = false /\
  Z.testbit (delay (reloadTimerA sample_cia)) 3 = true /\
  counterB (reloadTimerB sample_cia) = 0x00FF /\
  Z.testbit (delay (reloadTimerB sample_cia)) 6 = false.
Proof.
  destruct (reloadTimer_effect_and_frame sample_cia sample_cia_valid)
    as [[HA [HbitA _]] [HB [HbitB _]]].
  split; [exact HA|].
  split; [rewrite HbitA; reflexivity|].
  split; [rewrite HbitA; reflexivity|].
  split; [exact HB|].
  rewrite HbitB; reflexivity.
Defined.

Lemma latch_half_write_roundtrip_witness :
  getLatchALo (setLatchALo 0x5A sample_cia) = 0x5A /\
  getLatchAHi (setLatchALo 0x5A sample_cia) = 0xBE /\
  getLatchBHi (setLatchBHi 0x5A sample_cia) = 0x5A /\
  getLatchBLo (setLatchBHi 0x5A sample_cia) = 0xFF.
Proof.
  assert (uint8 0x5A) as Hv by (unfold uint8; lia).
  destruct (latch_half_write_roundtrip sample_cia 0x5A Hv)
    as [[H1 [H2 _]] [_ [_ [H3 [H4 _]]]]].
  split; [exact H1|].
  split; [rewrite H2; reflexivity|].
  split; [exact H3|].
  rewrite H4; reflexivity.
Defined.

Lemma getControlReg_truncates_to_bool_witness :
  getControlRegA (setControlRegA 0x19 sample_cia) = true /\
  Z.b2z (getControlRegB (setControlRegB 0x19 sample_cia)) = 1.
Proof.
  assert (uint8 0x19) as Hv by (unfold uint8; lia).
  destruct (getControlReg_truncates_to_bool sample_cia 0x19 Hv)
    as [[HA _] [_ [HB _]]].
  split; [exact HA|].
  apply HB. lia.
Defined.

Lemma toggle_helpers_are_involutions_witness :
  CRA (run_toggle ToggleOneShotFlagA sample_cia) = 0x09 /\
  run_toggle ToggleOneShotFlagA (run_toggle ToggleOneShotFlagA sample_cia) =
  sample_cia.
Proof.
  destruct (toggle_helpers_are_involutions sample_cia ToggleOneShotFlagA
              sample_cia_valid) as [_ [Hflip [_ [_ [_ [_ Hinv]]]]]].
  split; [rewrite Hflip; reflexivity | exact Hinv].
Defined.

(** C2 at a state with [ICR = 0x01] and [IMR = 0x01]:
    [setInterruptEnabledTOD(true)] and [setInterruptEnabledFlg(true)] leave
    [IMR] at 0x01 and set bit 2, respectively bit 4, of [ICR]; with the TOD
    or FLAG bit set in [IMR] only, [isInterruptEnabledTOD] and
    [isInterruptEnabledFlg] still answer [false].  The timer accessors,
    next to them in the header, do write [IMR]. *)
Theorem interrupt_enable_TOD_Flg_on_ICR :
  ICR sample_cia = 0x01 /\ IMR sample_cia = 0x01 /\
  IMR (setInterruptEnabledTOD true sample_cia) = 0x01 /\
  ICR (setInterruptEnabledTOD true sample_cia) = 0x05 /\
  IMR (setInterruptEnabledFlg true sample_cia) = 0x01 /\
  ICR (setInterruptEnabledFlg true sample_cia) = 0x11 /\
  isInterruptEnabledTOD (set_IMR 0x05 sample_cia) = false /\
  isInterruptEnabledFlg (set_IMR 0x11 sample_cia) = false /\
  IMR (setInterruptEnabledB true sample_cia) = 0x03 /\
  ICR (setInterruptEnabledB true sample_cia) = 0x01.
Proof. repeat split; reflexivity. Qed.

(** C4 at a state with [CRB = 0x40], source selector 10 (timer B counts
    timer A underflows): [isCountingClockTicksB] answers [true], as it
    does for selector 00; the same with the timer started ([CRB = 0x41]). *)
Theorem isCountingClockTicksB_on_underflow_source :
  CRB sample_cia = 0x40 /\
  Z.land (Z.shiftr (CRB sample_cia) 5) 3 = 2 /\
  isCountingClockTicksB sample_cia = true /\
  isCountingClockTicksB (set_CRB 0x41 sample_cia) = true /\
  isCountingClockTicksB (set_CRB 0x00 sample_cia) = true /\
  isCountingClockTicksA sample_cia = true.
Proof. repeat split; reflexivity. Qed.

(** * Further properties of the header's accessors *)

(** ** One bit of an integer *)

Lemma with_bit_testbit (k : Z) (b : bool) (x j : Z) :
  0 <= k ->
  Z.testbit (with_bit k b x) j = if j =? k then b else Z.testbit x j.
Proof.
  intros Hk. unfold with_bit.
  destruct b; [rewrite Z.lor_spec | rewrite Z.ldiff_spec];
    rewrite Z.pow2_bits_eqb by exact Hk; rewrite (Z.eqb_sym k j);
    destruct (j =? k); simpl;
    auto using orb_true_r, orb_false_r, andb_true_r, andb_false_r.
Qed.

Lemma uint8_testbit_high (x i : Z) : uint8 x -> 8 <= i -> Z.testbit x i = false.
Proof.
  intros Hx Hi. unfold uint8 in Hx.
  rewrite <- (Z.mod_small x (2 ^ 8)) by exact Hx.
  apply Z.mod_pow2_bits_high. lia.
Qed.

Lemma with_bit_uint8 (k : Z) (b : bool) (x : Z) :
  0 <= k < 8 -> uint8 x -> uint8 (with_bit k b x).
Proof.
  intros Hk Hx. unfold uint8 in *.
  assert (0 <= with_bit k b x) as Hnn.
  { unfold with_bit. destruct b.
    - apply Z.lor_nonneg. split; [lia | apply Z.pow_nonneg; lia].
    - apply Z.ldiff_nonneg. lia. }
  split; [exact Hnn|].
  destruct (Z.eq_dec (with_bit k b x) 0) as [-> | Hnz]; [reflexivity|].
  apply Z.log2_lt_pow2; [lia|].
  destruct (Z.lt_ge_cases (Z.log2 (with_bit k b x)) 8) as [Hlt | Hge]; [exact Hlt|].
  exfalso.
  assert (Z.testbit (with_bit k b x) (Z.log2 (with_bit k b x)) = true) as Ht
    by (apply Z.bit_log2; lia).
  rewrite with_bit_testbit in Ht by lia.
  destruct (Z.eqb_spec (Z.log2 (with_bit k b x)) k) as [E | _]; [lia|].
  rewrite (uint8_testbit_high x _ Hx Hge) in Ht. discriminate Ht.
Qed.

Lemma with_bit_twice (k : Z) (a b : bool) (x : Z) :
  0 <= k -> with_bit k a (with_bit k b x) = with_bit k a x.
Proof.
  intros Hk. apply Z.bits_inj'. intros j _.
  rewrite !with_bit_testbit by exact Hk. destruct (j =? k); reflexivity.
Qed.

Lemma with_bit_same (k : Z) (x : Z) :
  0 <= k -> with_bit k (Z.testbit x k) x = x.
Proof.
  intros Hk. apply Z.bits_inj'. intros j _.
  rewrite with_bit_testbit by exact Hk.
  destruct (Z.eqb_spec j k) as [-> | _]; reflexivity.
Qed.

Lemma with_bit_comm (k l : Z) (a b : bool) (x : Z) :
  0 <= k -> 0 <= l -> k <> l ->
  with_bit k a (with_bit l b x) = with_bit l b (with_bit k a x).
Proof.
  intros Hk Hl Hkl. apply Z.bits_inj'. intros j _.
  rewrite !with_bit_testbit by assumption.
  destruct (Z.eqb_spec j k), (Z.eqb_spec j l); try reflexivity; lia.
Qed.

(** ** Flag accessors *)

Lemma Register_eq_dec (r r' : Register) : {r = r'} + {r <> r'}.
Proof. decide equality. Qed.

Lemma flag_bit_range (f : Flag) : 0 <= flag_bit f < 8.
Proof. destruct f; simpl; lia. Qed.

Lemma flag_key_inj (f g : Flag) :
  flag_register f = flag_register g -> flag_bit f = flag_bit g -> f = g.
Proof. destruct f, g; simpl; intros Hr Hb; try reflexivity; discriminate. Qed.

Section CIA_flags.

Context {TOD : Type}.
Implicit Types c : CIA TOD.

Lemma set_register_comm (r r' : Register) (v w : Z) c :
  r <> r' ->
  set_register r v (set_register r' w c) = set_register r' w (set_register r v c).
Proof. destruct r, r'; intros H; try reflexivity; contradiction H; reflexivity. Qed.

(** Each setter replaces one bit of its register. *)
Lemma set_flag_spec c (f : Flag) (b : bool) :
  uint8 (get_register (flag_register f) c) ->
  set_flag f b c =
  set_register (flag_register f)
    (with_bit (flag_bit f) b (get_register (flag_register f) c)) c.
Proof.
  intros Hx.
  destruct f; cbn [set_flag flag_register flag_bit get_register set_register] in *;
    unfold setInterruptEnabledA, setSignalPendingA, setInterruptEnabledB,
      setSignalPendingB, setInterruptEnabledTOD, setInterruptEnabledFlg,
      setStartedA, setIndicateUnderflowA, setOneShotA,
      setStartedB, setIndicateUnderflowB, setOneShotB, with_bit;
    destruct b; f_equal;
    match goal with
    | |- _ = Z.lor ?x ?m =>
        refine (byte_flag_set x m Hx _); simpl; tauto
    | |- _ = Z.ldiff ?x ?m =>
        refine (byte_flag_clear x m Hx _); simpl; tauto
    end.
Qed.

(** Each getter returns one bit of its register. *)
Lemma get_flag_spec c (f : Flag) :
  uint8 (get_register (flag_register f) c) ->
  get_flag f c = Z.testbit (get_register (flag_register f) c) (flag_bit f).
Proof.
  intros Hx.
  destruct f; cbn [get_flag flag_register flag_bit get_register] in *;
    unfold isInterruptEnabledA, isSignalPendingA, isInterruptEnabledB,
      isSignalPendingB, isInterruptEnabledTOD, isInterruptEnabledFlg,
      isStartedA, willIndicateUnderflowA, isOneShotA,
      isStartedB, willIndicateUnderflowB, isOneShotB;
    refine (byte_flag_test _ _ Hx _); simpl; tauto.
Qed.

Lemma set_flag_valid c (f : Flag) (b : bool) :
  valid_CIA c -> valid_CIA (set_flag f b c).
Proof.
  intros Hc. pose proof (valid_get_register (flag_register f) c Hc) as Hx.
  rewrite set_flag_spec by exact Hx.
  apply valid_set_register; [exact Hc|].
  apply with_bit_uint8; [apply flag_bit_range | exact Hx].
Qed.

(** Bit [j] of register [r] after a setter call. *)
Lemma set_flag_testbit c (f : Flag) (b : bool) (r : Register) (j : Z) :
  valid_CIA c ->
  Z.testbit (get_register r (set_flag f b c)) j =
  if Register_eq_dec r (flag_register f)
  then (if j =? flag_bit f then b else Z.testbit (get_register r c) j)
  else Z.testbit (get_register r c) j.
Proof.
  intros Hc. pose proof (valid_get_register (flag_register f) c Hc) as Hx.
  pose proof (flag_bit_range f) as Hk.
  rewrite set_flag_spec by exact Hx.
  destruct (Register_eq_dec r (flag_register f)) as [-> | Hne].
  - rewrite get_set_register, with_bit_testbit by lia. reflexivity.
  - rewrite get_set_register_other by exact Hne. reflexivity.
Qed.

Lemma set_flag_other_bit c (f : Flag) (b : bool) (r : Register) (j : Z) :
  valid_CIA c ->
  r <> flag_register f \/ j <> flag_bit f ->
  Z.testbit (get_register r (set_flag f b c)) j = Z.testbit (get_register r c) j.
Proof.
  intros Hc Hother. rewrite set_flag_testbit by exact Hc.
  destruct (Register_eq_dec r (flag_register f)) as [Hr | _]; [|reflexivity].
  destruct (Z.eqb_spec j (flag_bit f)) as [Hj | _]; [|reflexivity].
  destruct Hother; contradiction.
Qed.

(** X1. On a valid state a flag setter makes its own getter return the
    value written and changes the answer of no other flag getter. *)
Theorem set_flag_then_get_flag c (f : Flag) (b : bool) :
  valid_CIA c ->
  get_flag f (set_flag f b c) = b /\
  (forall g, g <> f -> get_flag g (set_flag f b c) = get_flag g c).
Proof.
  intros Hc. pose proof (set_flag_valid c f b Hc) as Hc'.
  split.
  - rewrite get_flag_spec by (apply valid_get_register; exact Hc').
    rewrite set_flag_testbit by exact Hc.
    destruct (Register_eq_dec (flag_register f) (flag_register f)) as [_ | N];
      [|contradiction N; reflexivity].
    rewrite Z.eqb_refl. reflexivity.
  - intros g Hg.
    rewrite !get_flag_spec by (apply valid_get_register; assumption).
    apply set_flag_other_bit; [exact Hc|].
    destruct (Register_eq_dec (flag_register g) (flag_register f)) as [Hr | Hr];
      [right | left; exact Hr].
    intros Hb. apply Hg. apply flag_key_inj; assumption.
Qed.

(** X2. A flag setter never changes another bit of any of the four
    registers, nor a counter, a latch, [delay], [feed] or [INT]; so the
    clock source, the force-load strobe and the pulse/toggle mode of both
    timers stay what they were. *)
Theorem set_flag_keeps_everything_else c (f : Flag) (b : bool) :
  valid_CIA c ->
  (forall r j, r <> flag_register f \/ j <> flag_bit f ->
     Z.testbit (get_register r (set_flag f b c)) j =
     Z.testbit (get_register r c) j) /\
  (counterA (set_flag f b c) = counterA c /\
   counterB (set_flag f b c) = counterB c /\
   latchA (set_flag f b c) = latchA c /\
   latchB (set_flag f b c) = latchB c /\
   delay (set_flag f b c) = delay c /\
   feed (set_flag f b c) = feed c /\
   INT (set_flag f b c) = INT c) /\
  (isCountingClockTicksA (set_flag f b c) = isCountingClockTicksA c /\
   isCountingClockTicksB (set_flag f b c) = isCountingClockTicksB c /\
   forceLoadStrobeA (set_flag f b c) = forceLoadStrobeA c /\
   forceLoadStrobeB (set_flag f b c) = forceLoadStrobeB c /\
   willIndicateUnderflowAsPulseA (set_flag f b c) =
     willIndicateUnderflowAsPulseA c /\
   willIndicateUnderflowAsPulseB (set_flag f b c) =
     willIndicateUnderflowAsPulseB c).
Proof.
  intros Hc. pose proof (set_flag_valid c f b Hc) as Hc'.
  pose proof (valid_get_register (flag_register f) c Hc) as Hx.
  split; [|split].
  - intros r j Hother. apply set_flag_other_bit; assumption.
  - rewrite set_flag_spec by exact Hx.
    destruct (flag_register f); repeat split.
  - pose proof (valid_get_register RegCRA c Hc) as HA.
    pose proof (valid_get_register RegCRB c Hc) as HB.
    pose proof (valid_get_register RegCRA _ Hc') as HA'.
    pose proof (valid_get_register RegCRB _ Hc') as HB'.
    cbn [get_register] in HA, HB, HA', HB'.
    assert (In 0x10 flag_masks) as M4 by (simpl; tauto).
    assert (In 0x04 flag_masks) as M2 by (simpl; tauto).
    unfold isCountingClockTicksA, isCountingClockTicksB,
      forceLoadStrobeA, forceLoadStrobeB,
      willIndicateUnderflowAsPulseA, willIndicateUnderflowAsPulseB.
    rewrite !land_bit5_zero.
    rewrite (byte_flag_test _ 0x10 HA' M4), (byte_flag_test _ 0x10 HA M4),
      (byte_flag_test _ 0x10 HB' M4), (byte_flag_test _ 0x10 HB M4),
      (byte_flag_test _ 0x04 HA' M2), (byte_flag_test _ 0x04 HA M2),
      (byte_flag_test _ 0x04 HB' M2), (byte_flag_test _ 0x04 HB M2).
    change (Z.log2 0x10) with 4. change (Z.log2 0x04) with 2.
    assert (forall r j, (r = RegCRA \/ r = RegCRB) -> (j = 2 \/ j = 4 \/ j = 5) ->
              Z.testbit (get_register r (set_flag f b c)) j =
              Z.testbit (get_register r c) j) as Hkeep.
    { intros r j Hr Hj. apply set_flag_other_bit; [exact Hc|].
      destruct f; cbn [flag_register flag_bit];
        first [ left; destruct Hr; subst r; discriminate
              | right; destruct Hj as [-> | [-> | ->]]; discriminate ]. }
    pose proof (fun j Hj => Hkeep RegCRA j (or_introl eq_refl) Hj) as KA.
    pose proof (fun j Hj => Hkeep RegCRB j (or_intror eq_refl) Hj) as KB.
    cbn [get_register] in KA, KB.
    rewrite (KA 5), (KB 5), (KA 4), (KB 4), (KA 2), (KB 2) by tauto.
    repeat split.
Qed.

(** X3. Of two writes to the same flag the second decides, and writing
    back the value a getter returned leaves a valid state as it is. *)
Theorem set_flag_last_write_wins c (f : Flag) (a b : bool) :
  valid_CIA c ->
  set_flag f a (set_flag f b c) = set_flag f a c /\
  set_flag f (get_flag f c) c = c.
Proof.
  intros Hc. pose proof (set_flag_valid c f b Hc) as Hc'.
  pose proof (valid_get_register (flag_register f) c Hc) as Hx.
  pose proof (flag_bit_range f) as Hk.
  split.
  - rewrite (set_flag_spec (set_flag f b c))
      by (apply valid_get_register; exact Hc').
    rewrite !(set_flag_spec c) by exact Hx.
    rewrite get_set_register, set_register_twice, with_bit_twice by lia.
    reflexivity.
  - rewrite set_flag_spec, get_flag_spec by exact Hx.
    rewrite with_bit_same by lia. apply set_register_get.
Qed.

(** X4. Writes to two different flags commute on a valid state. *)
Theorem set_flag_commute c (f g : Flag) (a b : bool) :
  valid_CIA c -> f <> g ->
  set_flag f a (set_flag g b c) = set_flag g b (set_flag f a c).
Proof.
  intros Hc Hfg.
  pose proof (valid_get_register (flag_register f) c Hc) as Hf.
  pose proof (valid_get_register (flag_register g) c Hc) as Hg.
  pose proof (valid_get_register (flag_register f) _ (set_flag_valid c g b Hc)) as Hf'.
  pose proof (valid_get_register (flag_register g) _ (set_flag_valid c f a Hc)) as Hg'.
  pose proof (flag_bit_range f) as Hkf. pose proof (flag_bit_range g) as Hkg.
  rewrite (set_flag_spec (set_flag g b c)) by exact Hf'.
  rewrite (set_flag_spec (set_flag f a c)) by exact Hg'.
  rewrite !(set_flag_spec c) by assumption.
  destruct (Register_eq_dec (flag_register f) (flag_register g)) as [E | N].
  - assert (flag_bit f <> flag_bit g) as Hb
      by (intros Hb; apply Hfg, flag_key_inj; assumption).
    rewrite E in *. rewrite !get_set_register, !set_register_twice.
    rewrite with_bit_comm by lia. reflexivity.
  - rewrite (get_set_register_other (flag_register g) (flag_register f)) by exact N.
    rewrite (get_set_register_other (flag_register f) (flag_register g))
      by (intros E; apply N; symmetry; exact E).
    apply set_register_comm. exact N.
Qed.

End CIA_flags.

(** ** 16-bit members written in two halves *)

Lemma bounded_of_high_bits (n x : Z) :
  0 <= n -> 0 <= x -> (forall i, n <= i -> Z.testbit x i = false) -> x < 2 ^ n.
Proof.
  intros Hn Hx Hhigh.
  destruct (Z.eq_dec x 0) as [-> | Hnz]; [apply Z.pow_pos_nonneg; lia|].
  apply Z.log2_lt_pow2; [lia|].
  destruct (Z.lt_ge_cases (Z.log2 x) n) as [Hlt | Hge]; [exact Hlt|].
  exfalso. specialize (Hhigh (Z.log2 x) Hge).
  rewrite (Z.bit_log2 x) in Hhigh by lia. discriminate Hhigh.
Qed.

Lemma word_of_halves (hi lo : Z) :
  uint8 hi -> uint8 lo -> Z.lor (Z.shiftl hi 8) lo = hi * 256 + lo.
Proof.
  intros Hhi Hlo. rewrite Z.or_to_plus.
  - rewrite Z.shiftl_mul_pow2 by lia. reflexivity.
  - unfold uint8 in Hlo. rewrite <- (Z.mod_small lo (2 ^ 8)) by exact Hlo.
    Z.bitblast. rewrite Z.testbit_neg_r by lia. reflexivity.
Qed.

Lemma hi_then_lo_write (l hi lo : Z) :
  uint8 hi -> uint8 lo ->
  to_uint16 (Z.lor (Z.land (to_uint16 (Z.lor (Z.shiftl hi 8) (Z.land l 0xFF)))
                           0xFF00) lo) = hi * 256 + lo.
Proof.
  intros Hhi Hlo. rewrite <- word_of_halves by assumption.
  unfold to_uint16, uint8 in *.
  rewrite <- (Z.mod_small hi (2 ^ 8)) by exact Hhi.
  rewrite <- (Z.mod_small lo (2 ^ 8)) by exact Hlo.
  change 0xFF00 with (Z.shiftl (Z.ones 8) 8). change 0xFF with (Z.ones 8).
  Z.bitblast.
  all: rewrite ?Z.testbit_neg_r by lia; btauto.
Qed.

Lemma lo_then_hi_write (l hi lo : Z) :
  uint8 hi -> uint8 lo ->
  to_uint16 (Z.lor (Z.shiftl hi 8)
                   (Z.land (to_uint16 (Z.lor (Z.land l 0xFF00) lo)) 0xFF)) =
  hi * 256 + lo.
Proof.
  intros Hhi Hlo. rewrite <- word_of_halves by assumption.
  unfold to_uint16, uint8 in *.
  rewrite <- (Z.mod_small hi (2 ^ 8)) by exact Hhi.
  rewrite <- (Z.mod_small lo (2 ^ 8)) by exact Hlo.
  change 0xFF00 with (Z.shiftl (Z.ones 8) 8). change 0xFF with (Z.ones 8).
  Z.bitblast.
  all: rewrite ?Z.testbit_neg_r by lia; btauto.
Qed.

Lemma lo_write_back (l : Z) :
  uint16 l -> to_uint16 (Z.lor (Z.land l 0xFF00) (to_uint8 (Z.land l 0xFF))) = l.
Proof.
  intros Hl. unfold to_uint16, to_uint8, uint16 in *.
  rewrite <- (Z.mod_small l (2 ^ 16)) at 3 by exact Hl.
  change 0xFF00 with (Z.shiftl (Z.ones 8) 8). change 0xFF with (Z.ones 8).
  Z.bitblast.
Qed.

Lemma hi_write_back (l : Z) :
  uint16 l ->
  to_uint16 (Z.lor (Z.shiftl (to_uint8 (Z.shiftr l 8)) 8) (Z.land l 0xFF)) = l.
Proof.
  intros Hl. unfold to_uint16, to_uint8, uint16 in *.
  rewrite <- (Z.mod_small l (2 ^ 16)) at 3 by exact Hl.
  change 0xFF with (Z.ones 8).
  Z.bitblast.
Qed.

Lemma halves_of_word (l : Z) :
  uint16 l -> l = to_uint8 (Z.shiftr l 8) * 256 + to_uint8 (Z.land l 0xFF).
Proof.
  intros Hl. unfold to_uint8, uint16 in *.
  change 0xFF with (Z.ones 8). rewrite Z.land_ones, Z.shiftr_div_pow2 by lia.
  rewrite Z.mod_mod by lia.
  rewrite (Z.mod_small (l / 2 ^ 8) (2 ^ 8))
    by (split; [apply Z.div_pos; lia | apply Z.div_lt_upper_bound; lia]).
  pose proof (Z.div_mod l (2 ^ 8)). lia.
Qed.

Lemma to_uint8_range (z : Z) : uint8 (to_uint8 z).
Proof. unfold uint8, to_uint8. apply Z.mod_pos_bound. reflexivity. Qed.

Lemma to_uint16_range (z : Z) : uint16 (to_uint16 z).
Proof. unfold uint16, to_uint16. apply Z.mod_pos_bound. reflexivity. Qed.

Section CIA_timers.

Context {TOD : Type}.
Implicit Types c : CIA TOD.

(** X5. Writing a byte into one half of a counter makes the getter of that
    half return the byte; the other half, the other counter, both latches
    and [delay] keep their values.  Unlike a reload, a counter write does
    not clear [Count*2]. *)
Theorem counter_half_write_roundtrip c (v : Z) :
  uint8 v ->
  (getCounterALo (setCounterALo v c) = v /\
   getCounterAHi (setCounterALo v c) = getCounterAHi c /\
   getCounterAHi (setCounterAHi v c) = v /\
   getCounterALo (setCounterAHi v c) = getCounterALo c) /\
  (getCounterBLo (setCounterBLo v c) = v /\
   getCounterBHi (setCounterBLo v c) = getCounterBHi c /\
   getCounterBHi (setCounterBHi v c) = v /\
   getCounterBLo (setCounterBHi v c) = getCounterBLo c) /\
  (forall w : CIA TOD -> CIA TOD,
     In w [setCounterALo v; setCounterAHi v; setCounterBLo v; setCounterBHi v] ->
     getLatchA (w c) = getLatchA c /\ getLatchB (w c) = getLatchB c /\
     delay (w c) = delay c) /\
  (forall w : CIA TOD -> CIA TOD,
     In w [setCounterALo v; setCounterAHi v] ->
     getCounterB (w c) = getCounterB c) /\
  (forall w : CIA TOD -> CIA TOD,
     In w [setCounterBLo v; setCounterBHi v] ->
     getCounterA (w c) = getCounterA c).
Proof.
  intros Hv.
  unfold getCounterALo, getCounterAHi, getCounterBLo, getCounterBHi,
    setCounterALo, setCounterAHi, setCounterBLo, setCounterBHi,
    getCounterA, getCounterB, getLatchA, getLatchB.
  split; [|split; [|split; [|split]]].
  - cbn [counterA set_counterA].
    repeat split;
      auto using lo_after_lo_write, hi_after_lo_write, hi_after_hi_write,
        lo_after_hi_write.
  - cbn [counterB set_counterB].
    repeat split;
      auto using lo_after_lo_write, hi_after_lo_write, hi_after_hi_write,
        lo_after_hi_write.
  - intros w Hw. simpl in Hw.
    destruct Hw as [<- | [<- | [<- | [<- | []]]]]; repeat split.
  - intros w Hw. simpl in Hw. destruct Hw as [<- | [<- | []]]; reflexivity.
  - intros w Hw. simpl in Hw. destruct Hw as [<- | [<- | []]]; reflexivity.
Qed.

(** X6. Writing both halves of a latch or of a counter, in either order,
    leaves the 16-bit value [hi * 256 + lo] in it, whatever it held before. *)
Theorem half_writes_compose c (hi lo : Z) :
  uint8 hi -> uint8 lo ->
  (getLatchA (setLatchAHi hi (setLatchALo lo c)) = hi * 256 + lo /\
   getLatchA (setLatchALo lo (setLatchAHi hi c)) = hi * 256 + lo) /\
  (getLatchB (setLatchBHi hi (setLatchBLo lo c)) = hi * 256 + lo /\
   getLatchB (setLatchBLo lo (setLatchBHi hi c)) = hi * 256 + lo) /\
  (getCounterA (setCounterAHi hi (setCounterALo lo c)) = hi * 256 + lo /\
   getCounterA (setCounterALo lo (setCounterAHi hi c)) = hi * 256 + lo) /\
  (getCounterB (setCounterBHi hi (setCounterBLo lo c)) = hi * 256 + lo /\
   getCounterB (setCounterBLo lo (setCounterBHi hi c)) = hi * 256 + lo).
Proof.
  intros Hhi Hlo.
  unfold getLatchA, getLatchB, getCounterA, getCounterB,
    setLatchALo, setLatchAHi, setLatchBLo, setLatchBHi,
    setCounterALo, setCounterAHi, setCounterBLo, setCounterBHi.
  cbn [latchA latchB counterA counterB
       set_latchA set_latchB set_counterA set_counterB].
  repeat split; auto using lo_then_hi_write, hi_then_lo_write.
Qed.

(** X7. On a valid state the two half getters are bytes that make up the
    16-bit member, [value = hi * 256 + lo], and writing a half back into
    its place changes nothing; for both latches and both counters. *)
Theorem halves_make_up_the_word c :
  valid_CIA c ->
  (uint8 (getLatchALo c) /\ uint8 (getLatchAHi c) /\
   getLatchA c = getLatchAHi c * 256 + getLatchALo c /\
   setLatchALo (getLatchALo c) c = c /\ setLatchAHi (getLatchAHi c) c = c) /\
  (uint8 (getLatchBLo c) /\ uint8 (getLatchBHi c) /\
   getLatchB c = getLatchBHi c * 256 + getLatchBLo c /\
   setLatchBLo (getLatchBLo c) c = c /\ setLatchBHi (getLatchBHi c) c = c) /\
  (uint8 (getCounterALo c) /\ uint8 (getCounterAHi c) /\
   getCounterA c = getCounterAHi c * 256 + getCounterALo c /\
   setCounterALo (getCounterALo c) c = c /\
   setCounterAHi (getCounterAHi c) c = c) /\
  (uint8 (getCounterBLo c) /\ uint8 (getCounterBHi c) /\
   getCounterB c = getCounterBHi c * 256 + getCounterBLo c /\
   setCounterBLo (getCounterBLo c) c = c /\
   setCounterBHi (getCounterBHi c) c = c).
Proof.
  intros Hc.
  assert (uint16 (latchA c) /\ uint16 (latchB c) /\
          uint16 (counterA c) /\ uint16 (counterB c)) as [HlA [HlB [HcA HcB]]]
    by (unfold valid_CIA in Hc; tauto).
  unfold getLatchA, getLatchB, getCounterA, getCounterB,
    getLatchALo, getLatchAHi, getLatchBLo, getLatchBHi,
    getCounterALo, getCounterAHi, getCounterBLo, getCounterBHi,
    setLatchALo, setLatchAHi, setLatchBLo, setLatchBHi,
    setCounterALo, setCounterAHi, setCounterBLo, setCounterBHi.
  repeat split;
    try apply Z.mod_pos_bound; try reflexivity;
    try (apply halves_of_word; assumption);
    try (rewrite lo_write_back by assumption; destruct c; reflexivity);
    try (rewrite hi_write_back by assumption; destruct c; reflexivity).
Qed.

(** ** Reloading a timer *)

Lemma ldiff_uint64 (d m : Z) : uint64 d -> uint64 (Z.ldiff d m).
Proof.
  intros Hd. unfold uint64.
  assert (0 <= Z.ldiff d m) as Hnn by (apply Z.ldiff_nonneg; unfold uint64 in Hd; lia).
  split; [exact Hnn|].
  apply bounded_of_high_bits; [lia | exact Hnn|].
  intros i Hi. rewrite Z.ldiff_spec, (uint64_testbit_high d i Hd Hi). reflexivity.
Qed.

Lemma reloadTimerA_spec c :
  valid_CIA c ->
  reloadTimerA c =
  set_delay (Z.ldiff (delay c) CountA2) (set_counterA (latchA c) c).
Proof.
  intros Hc. unfold reloadTimerA. cbn [delay set_counterA].
  rewrite clear_bit_uint64 by (unfold valid_CIA in Hc; tauto). reflexivity.
Qed.

Lemma reloadTimerB_spec c :
  valid_CIA c ->
  reloadTimerB c =
  set_delay (Z.ldiff (delay c) CountB2) (set_counterB (latchB c) c).
Proof.
  intros Hc. unfold reloadTimerB. cbn [delay set_counterB].
  rewrite clear_bit_uint64 by (unfold valid_CIA in Hc; tauto). reflexivity.
Qed.

Lemma reloadTimerA_valid c : valid_CIA c -> valid_CIA (reloadTimerA c).
Proof.
  intros Hc. rewrite reloadTimerA_spec by exact Hc.
  pose proof (ldiff_uint64 (delay c) CountA2) as Hd.
  unfold valid_CIA in *. cbn. tauto.
Qed.

Lemma reloadTimerB_valid c : valid_CIA c -> valid_CIA (reloadTimerB c).
Proof.
  intros Hc. rewrite reloadTimerB_spec by exact Hc.
  pose proof (ldiff_uint64 (delay c) CountB2) as Hd.
  unfold valid_CIA in *. cbn. tauto.
Qed.

Lemma ldiff_twice (d m : Z) : Z.ldiff (Z.ldiff d m) m = Z.ldiff d m.
Proof.
  apply Z.bits_inj'. intros i _. rewrite !Z.ldiff_spec.
  destruct (Z.testbit d i), (Z.testbit m i); reflexivity.
Qed.

Lemma ldiff_swap (d m n : Z) : Z.ldiff (Z.ldiff d m) n = Z.ldiff (Z.ldiff d n) m.
Proof.
  apply Z.bits_inj'. intros i _. rewrite !Z.ldiff_spec.
  destruct (Z.testbit d i), (Z.testbit m i), (Z.testbit n i); reflexivity.
Qed.

(** X8. On a valid state a reload keeps the state valid, a second reload
    of the same timer changes nothing more, and the reloads of timer A and
    of timer B commute: after both, each counter holds its latch and
    [CountA2] and [CountB2] are clear. *)
Theorem reloadTimer_idempotent_and_commute c :
  valid_CIA c ->
  valid_CIA (reloadTimerA c) /\ valid_CIA (reloadTimerB c) /\
  reloadTimerA (reloadTimerA c) = reloadTimerA c /\
  reloadTimerB (reloadTimerB c) = reloadTimerB c /\
  reloadTimerA (reloadTimerB c) = reloadTimerB (reloadTimerA c) /\
  getCounterA (reloadTimerA (reloadTimerB c)) = getLatchA c /\
  getCounterB (reloadTimerA (reloadTimerB c)) = getLatchB c /\
  Z.land (delay (reloadTimerA (reloadTimerB c))) (Z.lor CountA2 CountB2) = 0.
Proof.
  intros Hc.
  pose proof (reloadTimerA_valid c Hc) as HA.
  pose proof (reloadTimerB_valid c Hc) as HB.
  split; [exact HA|]. split; [exact HB|].
  assert (reloadTimerA (reloadTimerB c) =
          set_delay (Z.ldiff (Z.ldiff (delay c) CountB2) CountA2)
            (set_counterA (latchA c) (set_counterB (latchB c) c))) as HAB.
  { rewrite (reloadTimerA_spec _ HB), (reloadTimerB_spec c Hc). reflexivity. }
  split; [|split; [|split; [|split; [|split]]]].
  - rewrite (reloadTimerA_spec _ HA), (reloadTimerA_spec c Hc).
    cbn [delay latchA set_delay set_counterA]. rewrite ldiff_twice. reflexivity.
  - rewrite (reloadTimerB_spec _ HB), (reloadTimerB_spec c Hc).
    cbn [delay latchB set_delay set_counterB]. rewrite ldiff_twice. reflexivity.
  - rewrite HAB, (reloadTimerB_spec _ HA), (reloadTimerA_spec c Hc).
    cbn [delay latchB set_delay set_counterA]. rewrite ldiff_swap. reflexivity.
  - rewrite HAB. reflexivity.
  - rewrite HAB. reflexivity.
  - rewrite HAB. cbn [delay set_delay].
    apply Z.bits_inj'. intros i _.
    rewrite Z.land_spec, !Z.ldiff_spec, Z.lor_spec, Z.testbit_0_l.
    destruct (Z.testbit (delay c) i), (Z.testbit CountB2 i),
      (Z.testbit CountA2 i); reflexivity.
Qed.

(** X9. The way a program sets a timer: after both latch halves are
    written and the timer is reloaded, the counter reads back the two bytes,
    and the latch still holds them. *)
Theorem latch_write_then_reload c (hi lo : Z) :
  uint8 hi -> uint8 lo ->
  (getCounterA (reloadTimerA (setLatchAHi hi (setLatchALo lo c))) = hi * 256 + lo /\
   getCounterAHi (reloadTimerA (setLatchAHi hi (setLatchALo lo c))) = hi /\
   getCounterALo (reloadTimerA (setLatchAHi hi (setLatchALo lo c))) = lo /\
   getLatchA (reloadTimerA (setLatchAHi hi (setLatchALo lo c))) = hi * 256 + lo) /\
  (getCounterB (reloadTimerB (setLatchBHi hi (setLatchBLo lo c))) = hi * 256 + lo /\
   getCounterBHi (reloadTimerB (setLatchBHi hi (setLatchBLo lo c))) = hi /\
   getCounterBLo (reloadTimerB (setLatchBHi hi (setLatchBLo lo c))) = lo /\
   getLatchB (reloadTimerB (setLatchBHi hi (setLatchBLo lo c))) = hi * 256 + lo).
Proof.
  intros Hhi Hlo.
  assert (to_uint8 (Z.shiftr (hi * 256 + lo) 8) = hi) as Ehi.
  { unfold to_uint8, uint8 in *. rewrite Z.shiftr_div_pow2 by lia.
    change (2 ^ 8) with 256 in *.
    rewrite Z.div_add_l, (Z.div_small lo 256), Z.add_0_r by lia.
    apply Z.mod_small. lia. }
  assert (to_uint8 (Z.land (hi * 256 + lo) 0xFF) = lo) as Elo.
  { unfold to_uint8, uint8 in *. change 0xFF with (Z.ones 8).
    rewrite Z.land_ones by lia. rewrite Z.mod_mod by lia.
    change (2 ^ 8) with 256 in *.
    rewrite Z.add_comm, Z.mod_add by lia. apply Z.mod_small. lia. }
  unfold getCounterA, getCounterB, getCounterAHi, getCounterALo,
    getCounterBHi, getCounterBLo, getLatchA, getLatchB,
    reloadTimerA, reloadTimerB,
    setLatchALo, setLatchAHi, setLatchBLo, setLatchBHi.
  cbn [latchA latchB counterA counterB delay
       set_latchA set_latchB set_counterA set_counterB set_delay].
  rewrite !lo_then_hi_write by assumption.
  rewrite Ehi, Elo. repeat split.
Qed.

End CIA_timers.

(** * Properties of basic.cpp *)

(** ** Characters *)

(** X10. [petscii2printable] returns [c] when [c] is a printable ASCII
    code (0x20..0x7E) and [subst] otherwise; so with a printable [subst] the
    result is always printable, and applying the function again changes
    nothing. *)
Theorem petscii2printable_result (c subst : Z) :
  (0x20 <= c <= 0x7E -> petscii2printable c subst = c) /\
  (~ 0x20 <= c <= 0x7E -> petscii2printable c subst = subst) /\
  (0x20 <= subst <= 0x7E -> 0x20 <= petscii2printable c subst <= 0x7E) /\
  petscii2printable (petscii2printable c subst) subst = petscii2printable c subst.
Proof.
  unfold petscii2printable.
  destruct (Z.leb_spec 0x20 c), (Z.leb_spec c 0x7E); simpl;
    repeat split; intros; try lia;
    destruct (Z.leb_spec 0x20 subst), (Z.leb_spec subst 0x7E); simpl;
    try reflexivity; try lia;
    destruct (Z.leb_spec 0x20 c), (Z.leb_spec c 0x7E); simpl;
    try reflexivity; lia.
Qed.

(** X11. On a byte, [ascii2pet] returns 0 only for 0 and otherwise a code
    in 0x20..0x5D: codes 0x20..0x5D are kept, the letters a-z become A-Z,
    every other code becomes a blank.  The function ignores the case of
    letters and applying it twice is the same as applying it once. *)
Theorem ascii2pet_range_and_case (a : Z) :
  uint8 a ->
  (ascii2pet a = 0 <-> a = 0) /\
  (a <> 0 -> 0x20 <= ascii2pet a <= 0x5D) /\
  (0x20 <= a <= 0x5D -> ascii2pet a = a) /\
  (0x61 <= a <= 0x7A -> ascii2pet a = a - 0x20) /\
  (0 < a < 0x20 \/ 0x5E <= a <= 0x60 \/ 0x7B <= a -> ascii2pet a = 0x20) /\
  ascii2pet (toupper a) = ascii2pet a /\
  ascii2pet (ascii2pet a) = ascii2pet a.
Proof.
  intros Ha.
  split; [|split; [|split; [|split; [|split; [|split]]]]].
  - assert ((ascii2pet a =? 0) = (a =? 0)) as E.
    { apply Bool.eqb_prop. revert a Ha. apply uint8_forallb.
      vm_compute. reflexivity. }
    split; intros H; apply Z.eqb_eq; [rewrite <- E | rewrite E];
      apply Z.eqb_eq; exact H.
  - intros Hnz.
    assert ((a =? 0) || ((0x20 <=? ascii2pet a) && (ascii2pet a <=? 0x5D)) = true)
      as E by (clear - Ha; revert a Ha; apply uint8_forallb; vm_compute; reflexivity).
    destruct (Z.eqb_spec a 0) as [? | _]; [contradiction|].
    apply andb_true_iff in E. destruct E as [E1 E2].
    apply Z.leb_le in E1. apply Z.leb_le in E2. lia.
  - intros Hr.
    assert (negb ((0x20 <=? a) && (a <=? 0x5D)) || (ascii2pet a =? a) = true)
      as E by (clear - Ha; revert a Ha; apply uint8_forallb; vm_compute; reflexivity).
    destruct (Z.leb_spec 0x20 a), (Z.leb_spec a 0x5D);
      simpl in E; first [lia | apply Z.eqb_eq, E].
  - intros Hr.
    assert (negb ((0x61 <=? a) && (a <=? 0x7A)) || (ascii2pet a =? a - 0x20) = true)
      as E by (clear - Ha; revert a Ha; apply uint8_forallb; vm_compute; reflexivity).
    destruct (Z.leb_spec 0x61 a), (Z.leb_spec a 0x7A);
      simpl in E; first [lia | apply Z.eqb_eq, E].
  - intros Hr.
    assert (negb (((0 <? a) && (a <? 0x20)) || ((0x5E <=? a) && (a <=? 0x60))
                  || (0x7B <=? a)) || (ascii2pet a =? 0x20) = true)
      as E by (clear - Ha; revert a Ha; apply uint8_forallb; vm_compute; reflexivity).
    destruct (Z.ltb_spec 0 a), (Z.ltb_spec a 0x20), (Z.leb_spec 0x5E a),
      (Z.leb_spec a 0x60), (Z.leb_spec 0x7B a);
      simpl in E; first [lia | apply Z.eqb_eq, E].
  - apply Z.eqb_eq. revert a Ha. apply uint8_forallb. vm_compute. reflexivity.
  - apply Z.eqb_eq. revert a Ha. apply uint8_forallb. vm_compute. reflexivity.
Qed.

(** ** Printing numbers *)

Lemma to_uint8_mod (x b : Z) : 0 < b <= 2 ^ 8 -> to_uint8 (x mod b) = x mod b.
Proof.
  intros Hb. unfold to_uint8. apply Z.mod_small.
  pose proof (Z.mod_pos_bound x b). lia.
Qed.

Tactic Notation "open_buffer" ident(s) ident(H) integer(n) :=
  do n (destruct s as [|? s]; [cbn [length] in H; lia|]).

Ltac run_sprint :=
  cbv beta iota zeta delta
    [sprintd_loop sprintx_loop sprintb_loop store length Nat.ltb Nat.leb
     firstn skipn app].

(** X12. Given room for the digits and the terminator, [sprint8d] writes
    the three and [sprint16d] the five decimal digits of the value, most
    significant first and padded with zeros, then a NUL, and leaves the rest
    of the array alone; the digits read back as the value, so no byte or
    16-bit value is too large for its field. *)
Theorem sprintd_prints_decimal (s8 s16 : list Z) (v8 v16 : Z) :
  uint8 v8 -> uint16 v16 -> (4 <= length s8)%nat -> (6 <= length s16)%nat ->
  (sprint8d s8 v8 =
     [0x30 + v8 / 100; 0x30 + v8 / 10 mod 10; 0x30 + v8 mod 10; 0]
     ++ skipn 4 s8 /\
   Forall (fun ch => 0x30 <= ch <= 0x39) (firstn 3 (sprint8d s8 v8)) /\
   decimal_value (firstn 3 (sprint8d s8 v8)) = v8) /\
  (sprint16d s16 v16 =
     [0x30 + v16 / 10000; 0x30 + v16 / 1000 mod 10; 0x30 + v16 / 100 mod 10;
      0x30 + v16 / 10 mod 10; 0x30 + v16 mod 10; 0] ++ skipn 6 s16 /\
   Forall (fun ch => 0x30 <= ch <= 0x39) (firstn 5 (sprint16d s16 v16)) /\
   decimal_value (firstn 5 (sprint16d s16 v16)) = v16).
Proof.
  intros H8 H16 Hs8 Hs16. unfold uint8, uint16 in *.
  assert (sprint8d s8 v8 =
     [0x30 + v8 / 100; 0x30 + v8 / 10 mod 10; 0x30 + v8 mod 10; 0]
     ++ skipn 4 s8) as E8.
  { open_buffer s8 Hs8 4. unfold sprint8d. run_sprint.
    rewrite !to_uint8_mod by lia. rewrite !Z.div_div by lia.
    change (10 * 10) with 100.
    rewrite (Z.mod_small (v8 / 100) 10)
      by (split; [apply Z.div_pos; lia | apply Z.div_lt_upper_bound; lia]).
    reflexivity. }
  assert (sprint16d s16 v16 =
     [0x30 + v16 / 10000; 0x30 + v16 / 1000 mod 10; 0x30 + v16 / 100 mod 10;
      0x30 + v16 / 10 mod 10; 0x30 + v16 mod 10; 0] ++ skipn 6 s16) as E16.
  { open_buffer s16 Hs16 6. unfold sprint16d. run_sprint.
    rewrite !to_uint8_mod by lia.
    replace (v16 / 10 / 10 / 10 / 10) with (v16 / 10000)
      by (rewrite !Z.div_div by lia; reflexivity).
    replace (v16 / 10 / 10 / 10) with (v16 / 1000)
      by (rewrite !Z.div_div by lia; reflexivity).
    replace (v16 / 10 / 10) with (v16 / 100)
      by (rewrite !Z.div_div by lia; reflexivity).
    rewrite (Z.mod_small (v16 / 10000) 10)
      by (split; [apply Z.div_pos; lia | apply Z.div_lt_upper_bound; lia]).
    reflexivity. }
  rewrite E8, E16. cbn [firstn app]. unfold decimal_value. cbn [fold_left].
  split; (split; [reflexivity | split]).
  - repeat constructor; Z.div_mod_to_equations; lia.
  - Z.div_mod_to_equations; lia.
  - repeat constructor; Z.div_mod_to_equations; lia.
  - Z.div_mod_to_equations; lia.
Qed.

Lemma hex_char_roundtrip (d : Z) :
  0 <= d < 16 ->
  hex_digit_value (hex_char d) = d /\
  (0x30 <= hex_char d <= 0x39 \/ 0x41 <= hex_char d <= 0x46).
Proof.
  intros Hd. unfold hex_digit_value, hex_char.
  destruct (Z.leb_spec d 9).
  - destruct (Z.leb_spec (0x30 + d) 0x39); lia.
  - destruct (Z.leb_spec (0x41 + d - 10) 0x39); lia.
Qed.

(** X13. Given room, [sprint8x] writes two and [sprint16x] four hexadecimal
    digits (0-9, A-F, most significant first), then a NUL, and leaves the
    rest of the array alone; the digits read back as the value. *)
Theorem sprintx_prints_hexadecimal (s8 s16 : list Z) (v8 v16 : Z) :
  uint8 v8 -> uint16 v16 -> (3 <= length s8)%nat -> (5 <= length s16)%nat ->
  (sprint8x s8 v8 =
     [hex_char (v8 / 16); hex_char (v8 mod 16); 0] ++ skipn 3 s8 /\
   Forall (fun ch => 0x30 <= ch <= 0x39 \/ 0x41 <= ch <= 0x46)
     (firstn 2 (sprint8x s8 v8)) /\
   hex_value (firstn 2 (sprint8x s8 v8)) = v8) /\
  (sprint16x s16 v16 =
     [hex_char (v16 / 4096); hex_char (v16 / 256 mod 16);
      hex_char (v16 / 16 mod 16); hex_char (v16 mod 16); 0] ++ skipn 5 s16 /\
   Forall (fun ch => 0x30 <= ch <= 0x39 \/ 0x41 <= ch <= 0x46)
     (firstn 4 (sprint16x s16 v16)) /\
   hex_value (firstn 4 (sprint16x s16 v16)) = v16).
Proof.
  intros H8 H16 Hs8 Hs16. unfold uint8, uint16 in *.
  assert (sprint8x s8 v8 =
     [hex_char (v8 / 16); hex_char (v8 mod 16); 0] ++ skipn 3 s8) as E8.
  { open_buffer s8 Hs8 3. unfold sprint8x. run_sprint.
    rewrite !to_uint8_mod by lia.
    rewrite (Z.mod_small (v8 / 16) 16)
      by (split; [apply Z.div_pos; lia | apply Z.div_lt_upper_bound; lia]).
    reflexivity. }
  assert (sprint16x s16 v16 =
     [hex_char (v16 / 4096); hex_char (v16 / 256 mod 16);
      hex_char (v16 / 16 mod 16); hex_char (v16 mod 16); 0] ++ skipn 5 s16) as E16.
  { open_buffer s16 Hs16 5. unfold sprint16x. run_sprint.
    rewrite !to_uint8_mod by lia.
    replace (v16 / 16 / 16 / 16) with (v16 / 4096)
      by (rewrite !Z.div_div by lia; reflexivity).
    replace (v16 / 16 / 16) with (v16 / 256)
      by (rewrite !Z.div_div by lia; reflexivity).
    rewrite (Z.mod_small (v16 / 4096) 16)
      by (split; [apply Z.div_pos; lia | apply Z.div_lt_upper_bound; lia]).
    reflexivity. }
  rewrite E8, E16. cbn [firstn app]. unfold hex_value. cbn [fold_left].
  assert (0 <= v8 / 16 < 16) as D81
    by (split; [apply Z.div_pos; lia | apply Z.div_lt_upper_bound; lia]).
  assert (0 <= v16 / 4096 < 16) as D163
    by (split; [apply Z.div_pos; lia | apply Z.div_lt_upper_bound; lia]).
  pose proof (Z.mod_pos_bound v8 16 eq_refl) as D80.
  pose proof (Z.mod_pos_bound (v16 / 256) 16 eq_refl) as D162.
  pose proof (Z.mod_pos_bound (v16 / 16) 16 eq_refl) as D161.
  pose proof (Z.mod_pos_bound v16 16 eq_refl) as D160.
  destruct (hex_char_roundtrip _ D81) as [R81 A81].
  destruct (hex_char_roundtrip _ D80) as [R80 A80].
  destruct (hex_char_roundtrip _ D163) as [R163 A163].
  destruct (hex_char_roundtrip _ D162) as [R162 A162].
  destruct (hex_char_roundtrip _ D161) as [R161 A161].
  destruct (hex_char_roundtrip _ D160) as [R160 A160].
  rewrite R81, R80, R163, R162, R161, R160.
  split; (split; [reflexivity | split]).
  - repeat (apply Forall_cons; [assumption|]). apply Forall_nil.
  - clear - H8. Z.div_mod_to_equations; lia.
  - repeat (apply Forall_cons; [assumption|]). apply Forall_nil.
  - clear - H16. Z.div_mod_to_equations; lia.
Qed.

Lemma land1_testbit (x : Z) : to_bool (Z.land x 0x01) = Z.testbit x 0.
Proof.
  change 0x01 with (Z.ones 1). rewrite Z.land_ones by lia.
  change (2 ^ 1) with 2. rewrite <- Z.bit0_mod.
  destruct (Z.testbit x 0); reflexivity.
Qed.

Lemma bit_char_mod2 (x : Z) :
  (if to_bool (Z.land x 0x01) then 0x31 else 0x30) - 0x30 = x mod 2.
Proof.
  change 0x01 with (Z.ones 1). rewrite Z.land_ones by lia.
  change (2 ^ 1) with 2. unfold to_bool.
  pose proof (Z.mod_pos_bound x 2 eq_refl).
  destruct (Z.eqb_spec (x mod 2) 0); simpl; lia.
Qed.

(** X14. Given room, [sprint8b] writes the eight and [sprint16b] the
    sixteen bits of the value as '0' and '1', bit 7 (bit 15) first, then a
    NUL, and leaves the rest of the array alone; the digits read back as
    the value. *)
Theorem sprintb_prints_binary (s8 s16 : list Z) (v8 v16 : Z) :
  uint8 v8 -> uint16 v16 -> (9 <= length s8)%nat -> (17 <= length s16)%nat ->
  (sprint8b s8 v8 =
     map (fun k => if Z.testbit v8 k then 0x31 else 0x30) [7; 6; 5; 4; 3; 2; 1; 0]
     ++ 0 :: skipn 9 s8 /\
   binary_value (firstn 8 (sprint8b s8 v8)) = v8) /\
  (sprint16b s16 v16 =
     map (fun k => if Z.testbit v16 k then 0x31 else 0x30)
       [15; 14; 13; 12; 11; 10; 9; 8; 7; 6; 5; 4; 3; 2; 1; 0]
     ++ 0 :: skipn 17 s16 /\
   binary_value (firstn 16 (sprint16b s16 v16)) = v16).
Proof.
  intros H8 H16 Hs8 Hs16. unfold uint8, uint16 in *.
  open_buffer s8 Hs8 9. open_buffer s16 Hs16 17.
  unfold sprint8b, sprint16b, binary_value. run_sprint.
  split; split.
  - rewrite !land1_testbit. rewrite !Z.shiftr_spec by lia. reflexivity.
  - cbn [fold_left]. rewrite !bit_char_mod2.
    rewrite !Z.shiftr_div_pow2 by lia. change (2 ^ 1) with 2.
    clear - H8. Z.div_mod_to_equations; lia.
  - rewrite !land1_testbit. rewrite !Z.shiftr_spec by lia. reflexivity.
  - cbn [fold_left]. rewrite !bit_char_mod2.
    rewrite !Z.shiftr_div_pow2 by lia. change (2 ^ 1) with 2.
    clear - H16. Z.div_mod_to_equations; lia.
Qed.

(** ** PETSCII to Unicode *)

Lemma store_app (pre : list Z) (x v : Z) (post : list Z) :
  store (length pre) v (pre ++ x :: post) = pre ++ v :: post.
Proof.
  unfold store.
  assert ((length pre <? length (pre ++ x :: post))%nat = true) as E
    by (apply Nat.ltb_lt; rewrite length_app; simpl; lia).
  rewrite E.
  rewrite firstn_app, Nat.sub_diag, firstn_all. cbn [firstn]. rewrite app_nil_r.
  replace (S (length pre)) with (length pre + 1)%nat by lia.
  rewrite skipn_app, skipn_all2 by lia.
  replace (length pre + 1 - length pre)%nat with 1%nat by lia. reflexivity.
Qed.

Lemma in_firstn_in (n : nat) (l : list Z) (x : Z) : In x (firstn n l) -> In x l.
Proof.
  revert l. induction n as [|n IH]; intros [|y l] H; simpl in *; try tauto.
  destruct H as [H | H]; [left; exact H | right; apply IH, H].
Qed.

Lemma firstn_skipn_cons (k : nat) (n : nat) (l : list Z) :
  (k < length l)%nat ->
  firstn (S n) (skipn k l) = nth k l 0 :: firstn n (skipn (S k) l).
Proof.
  revert l. induction k as [|k IH]; intros [|x l] Hk; cbn [length] in Hk; try lia.
  - reflexivity.
  - cbn [skipn nth]. apply IH. lia.
Qed.

Lemma translateToUnicode_loop_spec (base max : Z) (petscii : list Z) (n : nat) :
  forall (fuel : nat) (pre post : list Z),
  let m := Nat.min (length petscii) (Z.to_nat max) in
  0 <= max -> Z.of_nat m < 2 ^ 32 ->
  (length pre + n = m)%nat -> (n < fuel)%nat -> (n < length post)%nat ->
  translateToUnicode_loop fuel petscii (Z.of_nat (length pre)) (pre ++ post) base max =
  Some (pre ++ map (fun ch => to_uint16 (base + ch))
                   (firstn n (skipn (length pre) petscii))
            ++ skipn n post,
        Z.of_nat m).
Proof.
  induction n as [|n IH]; intros fuel pre post m Hmax Hm Hk Hfuel Hroom.
  - destruct fuel as [|fuel]; [lia|]. cbn [translateToUnicode_loop].
    assert ((Z.of_nat (length pre) <? Z.of_nat (length petscii)) &&
            (Z.of_nat (length pre) <? max) = false) as E.
    { apply andb_false_iff.
      destruct (Nat.le_gt_cases (length petscii) (Z.to_nat max)).
      - left. apply Z.ltb_ge. subst m. lia.
      - right. apply Z.ltb_ge. subst m. lia. }
    rewrite E. cbn [firstn map app skipn].
    replace (length pre) with m by lia. reflexivity.
  - destruct fuel as [|fuel]; [lia|]. cbn [translateToUnicode_loop].
    assert ((Z.of_nat (length pre) <? Z.of_nat (length petscii)) &&
            (Z.of_nat (length pre) <? max) = true) as E.
    { apply andb_true_iff. split; apply Z.ltb_lt; subst m; lia. }
    rewrite E. rewrite Nat2Z.id.
    destruct post as [|u post']; [cbn [length] in Hroom; lia|].
    rewrite store_app.
    assert (to_uint32 (Z.of_nat (length pre) + 1) =
            Z.of_nat (length (pre ++ [to_uint16 (base + nth (length pre) petscii 0)])))
      as Ei.
    { rewrite length_app. cbn [length]. unfold to_uint32.
      rewrite Z.mod_small by (subst m; lia). lia. }
    rewrite Ei.
    replace (pre ++ to_uint16 (base + nth (length pre) petscii 0) :: post')
      with ((pre ++ [to_uint16 (base + nth (length pre) petscii 0)]) ++ post')
      by (rewrite <- app_assoc; reflexivity).
    rewrite IH; try assumption.
    + rewrite firstn_skipn_cons by (subst m; lia).
      rewrite length_app. cbn [length map skipn].
      replace (length pre + 1)%nat with (S (length pre)) by lia.
      rewrite <- !app_assoc. reflexivity.
    + rewrite length_app. cbn [length]. lia.
    + lia.
    + cbn [length] in Hroom. lia.
Qed.

Lemma translateToUnicode_loop_diverges (base max : Z) (petscii : list Z) (fuel : nat) :
  2 ^ 32 <= Z.of_nat (length petscii) -> 2 ^ 32 <= max ->
  forall (i : Z) (unicode : list Z), 0 <= i < 2 ^ 32 ->
  translateToUnicode_loop fuel petscii i unicode base max = None.
Proof.
  intros Hlen Hmax. induction fuel as [|fuel IH]; intros i unicode Hi.
  - reflexivity.
  - cbn [translateToUnicode_loop].
    assert ((i <? Z.of_nat (length petscii)) && (i <? max) = true) as E
      by (apply andb_true_iff; split; apply Z.ltb_lt; lia).
    rewrite E. apply IH. unfold to_uint32. apply Z.mod_pos_bound. lia.
Qed.

(** X15. When the shorter of [strlen(petscii)] and [max] is below 2^32 and
    the array has room, [translateToUnicode] returns: it has written
    [base + ch] (modulo 2^16) for the first [max] characters of the string,
    then a 0 at index min(strlen, max), and left the rest of the array
    alone, so a string of [max] or more characters needs [max + 1] units.
    For [base <= 0xFF00] no unit before the terminator is 0 or wrapped. *)
Theorem translateToUnicode_result (fuel : nat) (petscii unicode : list Z) (base max : Z) :
  0 <= max ->
  Z.of_nat (Nat.min (length petscii) (Z.to_nat max)) < 2 ^ 32 ->
  (Nat.min (length petscii) (Z.to_nat max) < fuel)%nat ->
  (Nat.min (length petscii) (Z.to_nat max) < length unicode)%nat ->
  translateToUnicode fuel petscii unicode base max =
    Some (map (fun ch => to_uint16 (base + ch)) (firstn (Z.to_nat max) petscii)
          ++ 0 :: skipn (S (Nat.min (length petscii) (Z.to_nat max))) unicode) /\
  (cstring petscii -> 0 <= base <= 0xFF00 ->
   map (fun ch => to_uint16 (base + ch)) (firstn (Z.to_nat max) petscii) =
   map (fun ch => base + ch) (firstn (Z.to_nat max) petscii) /\
   Forall (fun u => u <> 0)
     (map (fun ch => to_uint16 (base + ch)) (firstn (Z.to_nat max) petscii))).
Proof.
  intros Hmax Hm Hfuel Hroom.
  set (m := Nat.min (length petscii) (Z.to_nat max)) in *.
  assert (firstn m petscii = firstn (Z.to_nat max) petscii) as Hfirst.
  { subst m. destruct (Nat.le_gt_cases (length petscii) (Z.to_nat max)) as [H | H].
    - rewrite Nat.min_l by exact H. rewrite !firstn_all2 by lia. reflexivity.
    - rewrite Nat.min_r by lia. reflexivity. }
  split.
  - unfold translateToUnicode.
    pose proof (translateToUnicode_loop_spec base max petscii m fuel [] unicode
                  Hmax Hm) as L.
    cbn [length app Nat.add skipn] in L. fold m in L.
    change (Z.of_nat 0) with 0 in L.
    rewrite L by (lia || reflexivity). rewrite Nat2Z.id, Hfirst.
    f_equal.
    assert (length (map (fun ch => to_uint16 (base + ch))
                      (firstn (Z.to_nat max) petscii)) = m) as Hlen
      by (rewrite length_map, length_firstn; subst m; lia).
    destruct (skipn m unicode) as [|x tl] eqn:Es.
    { apply (f_equal (@length Z)) in Es. rewrite length_skipn in Es.
      cbn [length] in Es. lia. }
    rewrite <- Hlen at 1. rewrite store_app. f_equal. f_equal.
    replace (S m) with (1 + m)%nat by lia.
    rewrite <- skipn_skipn, Es. reflexivity.
  - intros Hs Hbase.
    assert (forall ch, In ch (firstn (Z.to_nat max) petscii) -> 0 < ch < 2 ^ 8) as Hch.
    { intros ch Hin. apply in_firstn_in in Hin.
      unfold cstring in Hs. rewrite Forall_forall in Hs. apply Hs, Hin. }
    assert (map (fun ch => to_uint16 (base + ch)) (firstn (Z.to_nat max) petscii) =
            map (fun ch => base + ch) (firstn (Z.to_nat max) petscii)) as F.
    { apply map_ext_in. intros ch Hin. specialize (Hch ch Hin).
      unfold to_uint16. apply Z.mod_small. lia. }
    split; [exact F|].
    rewrite F. apply Forall_forall. intros u Hu.
    apply in_map_iff in Hu. destruct Hu as [ch [<- Hin]].
    specialize (Hch ch Hin). lia.
Qed.

(** X24. When [strlen(petscii)] and [max] are both 2^32 or more (and the
    array is large enough for every write to stay inside it), the
    [unsigned] counter wraps to 0 before it can reach either bound: the
    loop condition holds for ever and [translateToUnicode] never returns,
    whatever the number of steps allowed. *)
Theorem translateToUnicode_never_returns (fuel : nat) (petscii unicode : list Z)
    (base max : Z) :
  2 ^ 32 <= Z.of_nat (length petscii) -> 2 ^ 32 <= max ->
  2 ^ 32 <= Z.of_nat (length unicode) ->
  translateToUnicode fuel petscii unicode base max = None.
Proof.
  intros Hlen Hmax _. unfold translateToUnicode.
  rewrite (translateToUnicode_loop_diverges base max petscii fuel Hlen Hmax)
    by lia.
  reflexivity.
Qed.


(** ** Paths *)

Lemma strrchr_None (s : list Z) (ch : Z) : strrchr s ch = None <-> ~ In ch s.
Proof.
  induction s as [|x r IH]; cbn [strrchr In].
  - tauto.
  - destruct (strrchr r ch) as [pos|].
    + split; [discriminate|]. intros H. exfalso.
      assert (~ In ch r) as Hr by tauto.
      apply IH in Hr. discriminate Hr.
    + destruct (Z.eqb_spec x ch) as [-> | Hne].
      * split; [discriminate | tauto].
      * split; [|reflexivity]. intros _ [H | H]; [contradiction|].
        apply (proj1 IH eq_refl), H.
Qed.

Lemma strrchr_Some (s : list Z) (ch : Z) (pos : list Z) :
  strrchr s ch = Some pos ->
  exists pre tl, s = pre ++ ch :: tl /\ pos = ch :: tl /\ ~ In ch tl.
Proof.
  revert pos. induction s as [|x r IH]; cbn [strrchr]; intros pos H.
  - discriminate H.
  - destruct (strrchr r ch) as [pos'|] eqn:E.
    + injection H as <-. destruct (IH pos' eq_refl) as [pre [tl [Hs [Hp Hn]]]].
      exists (x :: pre), tl. subst r. auto.
    + destruct (Z.eqb_spec x ch) as [-> | Hne]; [|discriminate H].
      injection H as <-. exists [], r. repeat split.
      apply strrchr_None, E.
Qed.

Lemma strrchr_last (pre tl : list Z) (ch : Z) :
  ~ In ch tl -> strrchr (pre ++ ch :: tl) ch = Some (ch :: tl).
Proof.
  intros Hn. induction pre as [|x pre IH]; cbn [app strrchr].
  - rewrite (proj2 (strrchr_None tl ch) Hn), Z.eqb_refl. reflexivity.
  - rewrite IH. reflexivity.
Qed.

Lemma ExtractFilename_no_slash (p : list Z) :
  ~ In 0x2F p -> ExtractFilename p = p.
Proof.
  intros Hp. unfold ExtractFilename.
  rewrite (proj2 (strrchr_None p 0x2F) Hp). reflexivity.
Qed.

Lemma ExtractFilename_slash_free (p : list Z) : ~ In 0x2F (ExtractFilename p).
Proof.
  unfold ExtractFilename. destruct (strrchr p 0x2F) as [pos|] eqn:E.
  - destruct (strrchr_Some _ _ _ E) as [pre [tl [_ [-> Hn]]]]. exact Hn.
  - apply strrchr_None, E.
Qed.

Lemma ExtractFilename_length (p : list Z) :
  (length (ExtractFilename p) <= length p)%nat.
Proof.
  unfold ExtractFilename. destruct (strrchr p 0x2F) as [pos|] eqn:E; [|lia].
  destruct (strrchr_Some _ _ _ E) as [pre [tl [-> [-> _]]]].
  cbn [skipn]. rewrite length_app. cbn [length]. lia.
Qed.

Lemma ExtractSuffix_no_dot (p : list Z) : ~ In 0x2E p -> ExtractSuffix p = [].
Proof.
  intros Hp. unfold ExtractSuffix.
  rewrite (proj2 (strrchr_None p 0x2E) Hp). reflexivity.
Qed.

Lemma ExtractSuffix_dot_free (p : list Z) : ~ In 0x2E (ExtractSuffix p).
Proof.
  unfold ExtractSuffix. destruct (strrchr p 0x2E) as [pos|] eqn:E.
  - destruct (strrchr_Some _ _ _ E) as [pre [tl [_ [-> Hn]]]]. exact Hn.
  - intros [].
Qed.

Lemma ExtractSuffix_split (p : list Z) :
  In 0x2E p -> exists stem, p = stem ++ 0x2E :: ExtractSuffix p.
Proof.
  intros Hin. unfold ExtractSuffix.
  destruct (strrchr p 0x2E) as [pos|] eqn:E.
  - destruct (strrchr_Some _ _ _ E) as [pre [tl [-> [-> Hn]]]].
    exists pre. reflexivity.
  - exfalso. apply (proj1 (strrchr_None p 0x2E) E), Hin.
Qed.

Lemma ExtractSuffix_nonempty_dot (p : list Z) : ExtractSuffix p <> [] -> In 0x2E p.
Proof.
  intros Hne. destruct (in_dec Z.eq_dec 0x2E p) as [H | H]; [exact H|].
  contradiction Hne. apply ExtractSuffix_no_dot, H.
Qed.

(** X16. [ExtractFilename] returns what follows the last '/' of the path,
    and the whole path when it has no '/'; the result has no '/', and
    extracting again changes nothing. *)
Theorem ExtractFilename_is_last_component (path : list Z) :
  (forall dir name, ~ In 0x2F name ->
     ExtractFilename (dir ++ 0x2F :: name) = name) /\
  (~ In 0x2F path -> ExtractFilename path = path) /\
  (In 0x2F path -> exists dir, path = dir ++ 0x2F :: ExtractFilename path) /\
  ~ In 0x2F (ExtractFilename path) /\
  ExtractFilename (ExtractFilename path) = ExtractFilename path.
Proof.
  split; [|split; [|split; [|split]]].
  - intros dir name Hn. unfold ExtractFilename.
    rewrite strrchr_last by exact Hn. reflexivity.
  - apply ExtractFilename_no_slash.
  - intros Hin. unfold ExtractFilename.
    destruct (strrchr path 0x2F) as [pos|] eqn:E.
    + destruct (strrchr_Some _ _ _ E) as [pre [tl [-> [-> Hn]]]].
      exists pre. reflexivity.
    + exfalso. apply (proj1 (strrchr_None path 0x2F) E), Hin.
  - apply ExtractFilename_slash_free.
  - apply ExtractFilename_no_slash, ExtractFilename_slash_free.
Qed.

(** X17. [ExtractSuffix] returns what follows the last '.' of the path and
    the empty string when the path has no '.'; the result has no '.'. *)
Theorem ExtractSuffix_is_after_last_dot (path : list Z) :
  (forall stem suffix, ~ In 0x2E suffix ->
     ExtractSuffix (stem ++ 0x2E :: suffix) = suffix) /\
  (~ In 0x2E path -> ExtractSuffix path = []) /\
  (In 0x2E path -> exists stem, path = stem ++ 0x2E :: ExtractSuffix path) /\
  ~ In 0x2E (ExtractSuffix path) /\
  ExtractSuffix (ExtractSuffix path) = [].
Proof.
  split; [|split; [|split; [|split]]].
  - intros stem suffix Hn. unfold ExtractSuffix.
    rewrite strrchr_last by exact Hn. reflexivity.
  - apply ExtractSuffix_no_dot.
  - apply ExtractSuffix_split.
  - apply ExtractSuffix_dot_free.
  - apply ExtractSuffix_no_dot, ExtractSuffix_dot_free.
Qed.

Lemma strcmp_zero (a b : list Z) :
  cstring a -> cstring b -> (strcmp a b = 0 <-> a = b).
Proof.
  unfold cstring. revert b. induction a as [|x a IH]; intros [|y b] Ha Hb;
    cbn [strcmp].
  - tauto.
  - inversion Hb; subst. split; [lia | discriminate].
  - inversion Ha; subst. split; [lia | discriminate].
  - inversion Ha; subst. inversion Hb; subst.
    destruct (Z.eqb_spec x y) as [-> | Hne].
    + rewrite IH by assumption. split; [intros ->; reflexivity|].
      intros H. injection H as ->. reflexivity.
    + split; [lia|]. intros H. injection H as -> _. contradiction.
Qed.

Lemma cstring_skipn (n : nat) (s : list Z) : cstring s -> cstring (skipn n s).
Proof.
  unfold cstring. rewrite !Forall_forall. intros H x Hx.
  apply H. rewrite <- (firstn_skipn n s). apply in_or_app. right. exact Hx.
Qed.

(** X18. On C strings [checkFileSuffix] answers [true] exactly when the
    file name ends with the suffix; so it accepts the empty suffix, the name
    itself, and the suffix [ExtractSuffix] returns for the name. *)
Theorem checkFileSuffix_iff_ends_with (filename suffix : list Z) :
  cstring filename -> cstring suffix ->
  (checkFileSuffix filename suffix = true <->
   exists stem, filename = stem ++ suffix) /\
  checkFileSuffix filename [] = true /\
  checkFileSuffix filename filename = true /\
  checkFileSuffix filename (ExtractSuffix filename) = true.
Proof.
  intros Hf Hs.
  assert (forall f s, cstring f -> cstring s ->
            (checkFileSuffix f s = true <-> exists stem, f = stem ++ s)) as Hiff.
  { clear. intros f s Hf Hs. unfold checkFileSuffix.
    destruct (Nat.ltb_spec (length f) (length s)) as [Hlt | Hge].
    - split; [discriminate|]. intros [stem ->]. rewrite length_app in Hlt. lia.
    - pose proof (strcmp_zero (skipn (length f - length s) f) s
                    (cstring_skipn _ _ Hf) Hs) as Hz.
      destruct (Z.eqb_spec (strcmp (skipn (length f - length s) f) s) 0) as [E | E].
      + split; [|reflexivity]. intros _.
        exists (firstn (length f - length s) f).
        rewrite <- (proj1 Hz E) at 2. symmetry. apply firstn_skipn.
      + split; [discriminate|]. intros [stem ->]. exfalso. apply E, Hz.
        rewrite length_app.
        replace (length stem + length s - length s)%nat with (length stem + 0)%nat by lia.
        rewrite skipn_app, skipn_all2 by lia.
        replace (length stem + 0 - length stem)%nat with 0%nat by lia.
        reflexivity. }
  split; [apply Hiff; assumption|].
  split; [|split].
  - apply Hiff; [assumption | constructor|]. exists filename.
    rewrite app_nil_r. reflexivity.
  - apply Hiff; [assumption | assumption|]. exists []. reflexivity.
  - unfold ExtractSuffix. destruct (strrchr filename 0x2E) as [pos|] eqn:E.
    + destruct (strrchr_Some _ _ _ E) as [pre [tl [-> [-> Hn]]]].
      cbn [skipn].
      assert (cstring tl) as Htl.
      { unfold cstring in *. rewrite Forall_forall in *. intros x Hx.
        apply Hf, in_or_app. right. right. exact Hx. }
      apply Hiff; [assumption | exact Htl|].
      exists (pre ++ [0x2E]). rewrite <- app_assoc. reflexivity.
    + apply Hiff; [assumption | constructor|]. exists filename.
      rewrite app_nil_r. reflexivity.
Qed.

(** X19. [ExtractFilenameWithoutSuffix] returns the last path component
    without its last '.' and what follows it: component = result ++ "." ++
    suffix when the suffix is not empty.  With an empty suffix the component
    is returned whole, so a name that ends in '.' keeps the dot.  The
    [size_t] count passed to [strndup] never wraps. *)
Theorem ExtractFilenameWithoutSuffix_splits (path : list Z) :
  Z.of_nat (length path) < 2 ^ 64 ->
  (ExtractSuffix (ExtractFilename path) <> [] ->
   ExtractFilename path =
     ExtractFilenameWithoutSuffix path ++ 0x2E :: ExtractSuffix (ExtractFilename path)) /\
  (ExtractSuffix (ExtractFilename path) = [] ->
   ExtractFilenameWithoutSuffix path = ExtractFilename path) /\
  ~ In 0x2F (ExtractFilenameWithoutSuffix path) /\
  (forall dir stem suffix,
     path = dir ++ 0x2F :: stem ++ 0x2E :: suffix ->
     ~ In 0x2F stem -> ~ In 0x2F suffix -> ~ In 0x2E suffix -> suffix <> [] ->
     ExtractFilenameWithoutSuffix path = stem) /\
  (forall stem, path = stem ++ [0x2E] -> ~ In 0x2F stem ->
     ExtractFilenameWithoutSuffix path = stem ++ [0x2E]).
Proof.
  intros Hlen.
  assert (forall stem suffix, ExtractFilename path = stem ++ 0x2E :: suffix ->
            ~ In 0x2E suffix -> suffix <> [] ->
            ExtractFilenameWithoutSuffix path = stem) as Hsplit.
  { intros stem suffix Ef Hn Hne. unfold ExtractFilenameWithoutSuffix.
    pose proof (ExtractFilename_length path) as Hle.
    rewrite Ef in *. unfold ExtractSuffix at 1 2.
    rewrite strrchr_last by exact Hn. cbn [skipn].
    destruct suffix as [|c suffix]; [contradiction Hne; reflexivity|].
    rewrite length_app in *. cbn [length Nat.eqb] in *.
    unfold to_uint64. rewrite Z.mod_small by lia.
    replace (Z.to_nat (Z.of_nat (length stem + S (S (length suffix)))
                       - Z.of_nat (S (length suffix)) - 1))
      with (length stem + 0)%nat by lia.
    rewrite firstn_app_2. cbn [firstn]. apply app_nil_r. }
  pose proof (ExtractFilename_slash_free path) as Hfree.
  assert (ExtractSuffix (ExtractFilename path) = [] ->
          ExtractFilenameWithoutSuffix path = ExtractFilename path) as Hempty.
  { intros E. unfold ExtractFilenameWithoutSuffix. rewrite E. reflexivity. }
  split; [|split; [exact Hempty|split; [|split]]].
  - intros Hne.
    destruct (ExtractSuffix_split _ (ExtractSuffix_nonempty_dot _ Hne))
      as [stem Hstem].
    rewrite (Hsplit stem _ Hstem (ExtractSuffix_dot_free _) Hne). exact Hstem.
  - destruct (ExtractSuffix (ExtractFilename path)) as [|c tl] eqn:E.
    + rewrite Hempty by reflexivity. exact Hfree.
    + assert (ExtractSuffix (ExtractFilename path) <> []) as Hne
        by (rewrite E; discriminate).
      destruct (ExtractSuffix_split _ (ExtractSuffix_nonempty_dot _ Hne))
        as [stem Hstem].
      rewrite (Hsplit stem _ Hstem (ExtractSuffix_dot_free _) Hne).
      intros Hin. apply Hfree. rewrite Hstem. apply in_or_app. left. exact Hin.
  - intros dir stem suffix Hp Hs1 Hs2 Hnd Hne.
    apply (Hsplit stem suffix); [|exact Hnd | exact Hne].
    rewrite Hp. unfold ExtractFilename. rewrite strrchr_last; [reflexivity|].
    intros Hin. apply in_app_or in Hin. destruct Hin as [H | [H | H]];
      [contradiction | discriminate H | contradiction].
  - intros stem Hp Hs. rewrite Hempty; rewrite Hp.
    + apply ExtractFilename_no_slash.
      intros Hin. apply in_app_or in Hin. destruct Hin as [H | [H | []]];
        [contradiction | discriminate H].
    + rewrite ExtractFilename_no_slash.
      * unfold ExtractSuffix. rewrite strrchr_last by (intros []). reflexivity.
      * intros Hin. apply in_app_or in Hin. destruct Hin as [H | [H | []]];
          [contradiction | discriminate H].
Qed.

(** * Properties of CustomCartridges.cpp *)

(** X20. For every 16-bit address both I/O windows of the Final Cartridge
    III read the ROM at [addr - 0x4000] (modulo 2^16): I/O 1 (0xDE00..0xDEFF)
    shows 0x9E00..0x9EFF and I/O 2 (0xDF00..0xDFFF) shows 0x9F00..0x9FFF,
    the last two pages of the bank at 0x8000. *)
Theorem FinalIII_io_mirrors_rom (peek : Z -> Z) (addr : Z) :
  uint16 addr ->
  FinalIII_peekIO1 peek addr = peek (to_uint16 (addr - 0x4000)) /\
  FinalIII_peekIO2 peek addr = peek (to_uint16 (addr - 0x4000)) /\
  (0xDE00 <= addr <= 0xDEFF ->
   FinalIII_peekIO1 peek addr = peek (0x9E00 + (addr - 0xDE00))) /\
  (0xDF00 <= addr <= 0xDFFF ->
   FinalIII_peekIO2 peek addr = peek (0x9F00 + (addr - 0xDF00))).
Proof.
  intros Ha. unfold uint16 in Ha.
  unfold FinalIII_peekIO1, FinalIII_peekIO2, to_uint16.
  assert ((0x8000 + 0x1E00 + (addr - 0xDE00) mod 2 ^ 16) mod 2 ^ 16 =
          (addr - 0x4000) mod 2 ^ 16) as E1.
  { rewrite Zplus_mod_idemp_r. f_equal. lia. }
  assert ((0x8000 + 0x1F00 + (addr - 0xDF00) mod 2 ^ 16) mod 2 ^ 16 =
          (addr - 0x4000) mod 2 ^ 16) as E2.
  { rewrite Zplus_mod_idemp_r. f_equal. lia. }
  rewrite E1, E2.
  repeat split; intros; f_equal; rewrite Z.mod_small; lia.
Qed.

(** X21. [Funplay::pokeIO1] never fails its [assert(bank < 16)]: for every
    byte written to 0xDE00 other than 0x86 it selects one bank below 16,
    whose bits 0, 1, 2 are bits 3, 4, 5 of the value and whose bit 3 is bit 0
    of the value; 0x86 switches the cartridge off, and a write to another
    address does nothing. *)
Theorem Funplay_bank_decoding (addr value : Z) :
  uint8 value ->
  Funplay_pokeIO1 addr value <> None /\
  (addr = 0xDE00 -> value <> 0x86 ->
   exists bank,
     Funplay_pokeIO1 addr value = Some [bankIn bank] /\
     0 <= bank < 16 /\
     Z.testbit bank 0 = Z.testbit value 3 /\
     Z.testbit bank 1 = Z.testbit value 4 /\
     Z.testbit bank 2 = Z.testbit value 5 /\
     Z.testbit bank 3 = Z.testbit value 0) /\
  (addr = 0xDE00 -> value = 0x86 ->
   Funplay_pokeIO1 addr value = Some [setGameLine 1; setExromLine 1]) /\
  (addr <> 0xDE00 -> Funplay_pokeIO1 addr value = Some []).
Proof.
  intros Hv.
  pose (bank := to_uint8 (Z.lor (Z.land (Z.shiftr value 3) 0x07)
                                (Z.land (Z.shiftl value 3) 0x08))).
  assert ((bank <? 16) && (0 <=? bank) &&
          Bool.eqb (Z.testbit bank 0) (Z.testbit value 3) &&
          Bool.eqb (Z.testbit bank 1) (Z.testbit value 4) &&
          Bool.eqb (Z.testbit bank 2) (Z.testbit value 5) &&
          Bool.eqb (Z.testbit bank 3) (Z.testbit value 0) = true) as A.
  { subst bank. revert value Hv. apply uint8_forallb. vm_compute. reflexivity. }
  repeat (apply andb_true_iff in A; destruct A as [A ?]).
  unfold Funplay_pokeIO1. fold bank. rewrite A.
  split; [|split; [|split]].
  - destruct (addr =? 0xDE00), (value =? 0x86); discriminate.
  - intros -> Hne. cbn [Z.eqb Pos.eqb].
    destruct (Z.eqb_spec value 0x86) as [? | _]; [contradiction|].
    exists bank. split; [reflexivity|].
    split; [split; [apply Z.leb_le | apply Z.ltb_lt]; assumption|].
    repeat split; apply Bool.eqb_prop; assumption.
  - intros -> ->. reflexivity.
  - intros Hne. destruct (Z.eqb_spec addr 0xDE00); [contradiction | reflexivity].
Qed.

(** X22. [MagicDesk::pokeIO1] stores [value & 0x8F] in the register on a
    write to any address, and [peekIO1] reads it back; only a write to
    0xDE00 also switches: EXROM gets bit 7 of the value and the bank is its
    low four bits, below 16. *)
Theorem MagicDesk_register_and_bank (regValue addr value : Z) :
  uint8 value ->
  MagicDesk_peekIO1 (fst (MagicDesk_pokeIO1 regValue addr value)) addr =
    Z.land value 0x8F /\
  (addr <> 0xDE00 -> snd (MagicDesk_pokeIO1 regValue addr value) = []) /\
  (addr = 0xDE00 ->
   snd (MagicDesk_pokeIO1 regValue addr value) =
     [setExromLine (Z.land value 0x80); bankIn (Z.land value 0x0F)] /\
   0 <= Z.land value 0x0F < 16 /\
   (Z.land value 0x80 = 0 \/ Z.land value 0x80 = 0x80) /\
   Z.land value 0x0F =
     Z.land (MagicDesk_peekIO1 (fst (MagicDesk_pokeIO1 regValue addr value)) addr)
            0x0F).
Proof.
  intros Hv.
  assert ((to_uint8 (Z.land value 0x8F) =? Z.land value 0x8F) &&
          (0 <=? Z.land value 0x0F) && (Z.land value 0x0F <? 16) &&
          ((Z.land value 0x80 =? 0) || (Z.land value 0x80 =? 0x80)) &&
          (Z.land value 0x0F =? Z.land (Z.land value 0x8F) 0x0F) = true) as A.
  { revert value Hv. apply uint8_forallb. vm_compute. reflexivity. }
  repeat (apply andb_true_iff in A; destruct A as [A ?]).
  apply Z.eqb_eq in A.
  unfold MagicDesk_peekIO1, MagicDesk_pokeIO1.
  destruct (Z.eqb_spec addr 0xDE00) as [E | E]; cbn [fst snd]; rewrite A.
  - split; [reflexivity|]. split; [intros; contradiction|]. intros _.
    split; [reflexivity|].
    split; [split; [apply Z.leb_le | apply Z.ltb_lt]; assumption|].
    split; [|apply Z.eqb_eq; assumption].
    match goal with H : _ || _ = true |- _ => apply orb_true_iff in H; destruct H as [H | H] end;
      [left | right]; apply Z.eqb_eq; assumption.
  - split; [reflexivity|]. split; [reflexivity|]. intros; contradiction.
Qed.

(** X23. [Comal80::pokeIO1] reacts to 0xDE00..0xDEFF only.  There it keeps
    [value & 0xC7] for [peekIO1], selects bank [value & 3] and sets the
    lines from bits 7..5: 111 switches the cartridge off, 010 gives the 8 KB
    and every other pattern the 16 KB configuration.  The register drops
    bit 5, so writing back what [peekIO1] returned selects the same bank
    but never switches the cartridge off. *)
Theorem Comal80_register_and_lines (regValue addr value : Z) :
  uint8 value ->
  (~ 0xDE00 <= addr <= 0xDEFF ->
   Comal80_pokeIO1 regValue addr value = (regValue, [])) /\
  (0xDE00 <= addr <= 0xDEFF ->
   Comal80_peekIO1 (fst (Comal80_pokeIO1 regValue addr value)) addr =
     Z.land value 0xC7 /\
   (exists bank exrom game,
      snd (Comal80_pokeIO1 regValue addr value) =
        [bankIn bank; setExromLine exrom; setGameLine game] /\
      bank = Z.land value 0x03 /\ 0 <= bank < 4 /\
      (exrom = 1 <-> Z.land value 0xE0 = 0xE0) /\
      (game = 1 <-> Z.land value 0xE0 = 0xE0 \/ Z.land value 0xE0 = 0x40) /\
      (exrom = 0 \/ exrom = 1) /\ (game = 0 \/ game = 1)) /\
   (let readback := fst (Comal80_pokeIO1 regValue addr value) in
    fst (Comal80_pokeIO1 readback addr readback) = readback /\
    exists game,
      snd (Comal80_pokeIO1 readback addr readback) =
        [bankIn (Z.land value 0x03); setExromLine 0; setGameLine game])).
Proof.
  intros Hv. unfold Comal80_peekIO1, Comal80_pokeIO1.
  split.
  - intros Hout.
    destruct (Z.leb_spec 0xDE00 addr), (Z.leb_spec addr 0xDEFF);
      try reflexivity; lia.
  - intros Hin.
    destruct (Z.leb_spec 0xDE00 addr), (Z.leb_spec addr 0xDEFF); try lia.
    cbn [andb fst snd].
    pose (r := to_uint8 (Z.land value 0xC7)).
    assert ((r =? Z.land value 0xC7) &&
            (0 <=? Z.land value 0x03) && (Z.land value 0x03 <? 4) &&
            (to_uint8 (Z.land r 0xC7) =? r) &&
            (Z.land r 0x03 =? Z.land value 0x03) &&
            negb (Z.land r 0xE0 =? 0xE0) = true) as A.
    { subst r. revert value Hv. apply uint8_forallb. vm_compute. reflexivity. }
    repeat (apply andb_true_iff in A; destruct A as [A ?]).
    fold r.
    repeat match goal with
    | H : (_ =? _) = true |- _ => apply Z.eqb_eq in H
    | H : (_ <=? _) = true |- _ => apply Z.leb_le in H
    | H : (_ <? _) = true |- _ => apply Z.ltb_lt in H
    | H : negb _ = true |- _ => apply negb_true_iff in H
    end.
    split; [assumption|]. split.
    + destruct (Z.eqb_spec (Z.land value 0xE0) 0xE0) as [E1 | E1];
        [|destruct (Z.eqb_spec (Z.land value 0xE0) 0x40) as [E2 | E2]];
        eexists; eexists; eexists; (split; [reflexivity|]);
        repeat split; intros; try lia; try tauto.
    + cbv zeta.
      match goal with H : to_uint8 (Z.land r 0xC7) = r |- _ => rewrite H end.
      match goal with H : Z.land r 0x03 = _ |- _ => rewrite H end.
      match goal with H : (Z.land r 0xE0 =? 0xE0) = false |- _ => rewrite H end.
      split; [reflexivity|].
      destruct (Z.land r 0xE0 =? 0x40); eexists; reflexivity.
Qed.

(** * The further properties on concrete inputs *)

Lemma set_flag_then_get_flag_witness :
  get_flag OneShotA (set_flag OneShotA true sample_cia) = true /\
  get_flag StartedA (set_flag OneShotA true sample_cia) = true.
Proof.
  destruct (set_flag_then_get_flag sample_cia OneShotA true sample_cia_valid)
    as [H1 H2].
  split; [exact H1|]. rewrite H2 by discriminate. reflexivity.
Defined.

Lemma set_flag_keeps_everything_else_witness :
  isCountingClockTicksA (set_flag StartedA false sample_cia) = true /\
  counterA (set_flag StartedA false sample_cia) = 0x1234.
Proof.
  destruct (set_flag_keeps_everything_else sample_cia StartedA false
              sample_cia_valid) as [_ [[Hc _] [Ht _]]].
  split; [rewrite Ht; reflexivity | rewrite Hc; reflexivity].
Defined.

Lemma set_flag_last_write_wins_witness :
  set_flag SignalPendingB true (set_flag SignalPendingB false sample_cia) =
  set_flag SignalPendingB true sample_cia /\
  set_flag SignalPendingB (get_flag SignalPendingB sample_cia) sample_cia =
  sample_cia.
Proof.
  exact (set_flag_last_write_wins sample_cia SignalPendingB true false
           sample_cia_valid).
Defined.

Lemma set_flag_commute_witness :
  set_flag InterruptEnabledTOD true (set_flag SignalPendingA false sample_cia) =
  set_flag SignalPendingA false (set_flag InterruptEnabledTOD true sample_cia).
Proof.
  apply (set_flag_commute sample_cia InterruptEnabledTOD SignalPendingA true false
           sample_cia_valid).
  discriminate.
Defined.

Lemma counter_half_write_roundtrip_witness :
  getCounterALo (setCounterALo 0x5A sample_cia) = 0x5A /\
  getCounterAHi (setCounterALo 0x5A sample_cia) = 0x12.
Proof.
  assert (uint8 0x5A) as Hv by (unfold uint8; lia).
  destruct (counter_half_write_roundtrip sample_cia 0x5A Hv) as [[H1 [H2 _]] _].
  split; [exact H1 | rewrite H2; reflexivity].
Defined.

Lemma half_writes_compose_witness :
  getLatchA (setLatchAHi 0xC0 (setLatchALo 0x01 sample_cia)) = 0xC001 /\
  getLatchA (setLatchALo 0x01 (setLatchAHi 0xC0 sample_cia)) = 0xC001.
Proof.
  assert (uint8 0xC0) as Hhi by (unfold uint8; lia).
  assert (uint8 0x01) as Hlo by (unfold uint8; lia).
  destruct (half_writes_compose sample_cia 0xC0 0x01 Hhi Hlo) as [[H1 H2] _].
  split; [exact H1 | exact H2].
Defined.

Lemma halves_make_up_the_word_witness :
  getLatchA sample_cia = getLatchAHi sample_cia * 256 + getLatchALo sample_cia /\
  setCounterBHi (getCounterBHi sample_cia) sample_cia = sample_cia.
Proof.
  destruct (halves_make_up_the_word sample_cia sample_cia_valid)
    as [[_ [_ [H1 _]]] [_ [_ [_ [_ [_ [_ H2]]]]]]].
  split; [exact H1 | exact H2].
Defined.

Lemma reloadTimer_idempotent_and_commute_witness :
  reloadTimerA (reloadTimerA sample_cia) = reloadTimerA sample_cia /\
  reloadTimerA (reloadTimerB sample_cia) = reloadTimerB (reloadTimerA sample_cia).
Proof.
  destruct (reloadTimer_idempotent_and_commute sample_cia sample_cia_valid)
    as [_ [_ [H1 [_ [H2 _]]]]].
  split; [exact H1 | exact H2].
Defined.

Lemma latch_write_then_reload_witness :
  getCounterA (reloadTimerA (setLatchAHi 0x40 (setLatchALo 0x25 sample_cia))) =
  0x4025.
Proof.
  assert (uint8 0x40) as Hhi by (unfold uint8; lia).
  assert (uint8 0x25) as Hlo by (unfold uint8; lia).
  destruct (latch_write_then_reload sample_cia 0x40 0x25 Hhi Hlo) as [[H _] _].
  exact H.
Defined.

Lemma ascii2pet_range_and_case_witness :
  ascii2pet 0x61 = 0x41 /\ ascii2pet (ascii2pet 0x61) = ascii2pet 0x61.
Proof.
  assert (uint8 0x61) as Ha by (unfold uint8; lia).
  destruct (ascii2pet_range_and_case 0x61 Ha) as [_ [_ [_ [H1 [_ [_ H2]]]]]].
  split; [apply H1; lia | exact H2].
Defined.

Lemma sprintd_prints_decimal_witness :
  sprint8d [1; 2; 3; 4; 5] 7 = [0x30; 0x30; 0x37; 0; 5] /\
  decimal_value (firstn 5 (sprint16d [0; 0; 0; 0; 0; 0] 65535)) = 65535.
Proof.
  assert (uint8 7) as H8 by (unfold uint8; lia).
  assert (uint16 65535) as H16 by (unfold uint16; lia).
  destruct (sprintd_prints_decimal [1; 2; 3; 4; 5] [0; 0; 0; 0; 0; 0] 7 65535
              H8 H16) as [[H1 _] [_ [_ H2]]];
    [cbn [length]; lia | cbn [length]; lia |].
  split; [rewrite H1; reflexivity | exact H2].
Defined.

Lemma sprintx_prints_hexadecimal_witness :
  sprint8x [0; 0; 0] 0xAF = [0x41; 0x46; 0] /\
  hex_value (firstn 4 (sprint16x [0; 0; 0; 0; 0] 0xBEEF)) = 0xBEEF.
Proof.
  assert (uint8 0xAF) as H8 by (unfold uint8; lia).
  assert (uint16 0xBEEF) as H16 by (unfold uint16; lia).
  destruct (sprintx_prints_hexadecimal [0; 0; 0] [0; 0; 0; 0; 0] 0xAF 0xBEEF
              H8 H16) as [[H1 _] [_ [_ H2]]];
    [cbn [length]; lia | cbn [length]; lia |].
  split; [rewrite H1; reflexivity | exact H2].
Defined.

Lemma sprintb_prints_binary_witness :
  sprint8b [9; 9; 9; 9; 9; 9; 9; 9; 9; 9] 0x05 =
    [0x30; 0x30; 0x30; 0x30; 0x30; 0x31; 0x30; 0x31; 0; 9] /\
  binary_value
    (firstn 16 (sprint16b [0; 0; 0; 0; 0; 0; 0; 0; 0; 0; 0; 0; 0; 0; 0; 0; 0]
                  0x8001)) = 0x8001.
Proof.
  assert (uint8 0x05) as H8 by (unfold uint8; lia).
  assert (uint16 0x8001) as H16 by (unfold uint16; lia).
  destruct (sprintb_prints_binary [9; 9; 9; 9; 9; 9; 9; 9; 9; 9]
              [0; 0; 0; 0; 0; 0; 0; 0; 0; 0; 0; 0; 0; 0; 0; 0; 0] 0x05 0x8001
              H8 H16) as [[H1 _] [_ H2]];
    [cbn [length]; lia | cbn [length]; lia |].
  split; [rewrite H1; reflexivity | exact H2].
Defined.

Lemma translateToUnicode_result_witness :
  translateToUnicode 3 [0x41; 0x42; 0x43] [7; 7; 7; 7] 0xE000 2 =
  Some [0xE041; 0xE042; 0; 7].
Proof.
  destruct (translateToUnicode_result 3 [0x41; 0x42; 0x43] [7; 7; 7; 7] 0xE000 2)
    as [H _];
    [lia | vm_compute; reflexivity | vm_compute; lia | vm_compute; lia |].
  rewrite H. reflexivity.
Defined.

Lemma translateToUnicode_never_returns_witness :
  translateToUnicode 7 (repeat 0x41 (Z.to_nat (2 ^ 32)))
    (repeat 0 (Z.to_nat (2 ^ 32))) 0xE000 (2 ^ 32) = None.
Proof.
  apply translateToUnicode_never_returns.
  - rewrite repeat_length, Z2Nat.id; lia.
  - lia.
  - rewrite repeat_length, Z2Nat.id; lia.
Defined.

Lemma checkFileSuffix_iff_ends_with_witness :
  checkFileSuffix [0x61; 0x2E; 0x64; 0x36; 0x34] [0x64; 0x36; 0x34] = true.
Proof.
  assert (cstring [0x61; 0x2E; 0x64; 0x36; 0x34]) as Hf
    by (unfold cstring; repeat (apply Forall_cons; [lia|]); apply Forall_nil).
  assert (cstring [0x64; 0x36; 0x34]) as Hs
    by (unfold cstring; repeat (apply Forall_cons; [lia|]); apply Forall_nil).
  destruct (checkFileSuffix_iff_ends_with _ _ Hf Hs) as [H _].
  apply H. exists [0x61; 0x2E]. reflexivity.
Defined.

Lemma ExtractFilenameWithoutSuffix_splits_witness :
  ExtractFilenameWithoutSuffix [0x61; 0x2F; 0x62; 0x2E; 0x63] = [0x62].
Proof.
  destruct (ExtractFilenameWithoutSuffix_splits [0x61; 0x2F; 0x62; 0x2E; 0x63])
    as [_ [_ [_ [H _]]]]; [cbn [length]; lia|].
  apply (H [0x61] [0x62] [0x63]); try reflexivity;
    simpl; intros Hin; repeat destruct Hin as [Hin | Hin]; discriminate || auto.
Defined.

Lemma FinalIII_io_mirrors_rom_witness :
  FinalIII_peekIO1 (fun a => a) 0xDE12 = 0x9E12 /\
  FinalIII_peekIO2 (fun a => a) 0xDFFF = 0x9FFF.
Proof.
  assert (uint16 0xDE12) as H1 by (unfold uint16; lia).
  assert (uint16 0xDFFF) as H2 by (unfold uint16; lia).
  destruct (FinalIII_io_mirrors_rom (fun a => a) 0xDE12 H1) as [_ [_ [E1 _]]].
  destruct (FinalIII_io_mirrors_rom (fun a => a) 0xDFFF H2) as [_ [_ [_ E2]]].
  split; [rewrite E1 by lia; reflexivity | rewrite E2 by lia; reflexivity].
Defined.

Lemma Funplay_bank_decoding_witness :
  Funplay_pokeIO1 0xDE00 0x39 <> None /\
  Funplay_pokeIO1 0xDE01 0x39 = Some [].
Proof.
  assert (uint8 0x39) as Hv by (unfold uint8; lia).
  destruct (Funplay_bank_decoding 0xDE00 0x39 Hv) as [H1 _].
  destruct (Funplay_bank_decoding 0xDE01 0x39 Hv) as [_ [_ [_ H2]]].
  split; [exact H1 | apply H2; discriminate].
Defined.

Lemma MagicDesk_register_and_bank_witness :
  MagicDesk_peekIO1 (fst (MagicDesk_pokeIO1 0 0xDE42 0xFF)) 0xDE42 = 0x8F /\
  snd (MagicDesk_pokeIO1 0 0xDE42 0xFF) = [].
Proof.
  assert (uint8 0xFF) as Hv by (unfold uint8; lia).
  destruct (MagicDesk_register_and_bank 0 0xDE42 0xFF Hv) as [H1 [H2 _]].
  split; [rewrite H1; reflexivity | apply H2; discriminate].
Defined.

Lemma Comal80_register_and_lines_witness :
  Comal80_peekIO1 (fst (Comal80_pokeIO1 0 0xDE00 0xE1)) 0xDE00 = 0xC1 /\
  Comal80_pokeIO1 0x55 0xDF00 0xE1 = (0x55, []).
Proof.
  assert (uint8 0xE1) as Hv by (unfold uint8; lia).
  destruct (Comal80_register_and_lines 0 0xDE00 0xE1 Hv) as [_ H1].
  destruct (Comal80_register_and_lines 0x55 0xDF00 0xE1 Hv) as [H2 _].
  split; [|apply H2; lia].
  destruct H1 as [H1 _]; [lia|]. rewrite H1. reflexivity.
Defined.
